(** * A shallow embedding of the character core of Cat's SM64 Py Port
    ([sm64_port-cat-edition-v0.py]): collision queries, the action state
    machine, damage and healing, object interaction and the painter's
    sort of the renderer.

    Python floats are modelled as exact rationals [Q]; Python ints as [Z].
    [math.sin]/[math.cos] of degrees ([sins], [coss]) and the other
    transcendental helpers are section variables, so that every theorem
    holds for any choice of them. *)

From Stdlib Require Import QArith Qabs Qround Qminmax ZArith Bool List Lia Lqa.
From Stdlib Require Import Sorting.Sorted Sorting.Permutation.
Import ListNotations.

Open Scope Q_scope.

(** ** Small numeric helpers *)

(** Boolean strict comparison on [Q] ([a < b]). *)
Definition Qltb (a b : Q) : bool := negb (Qle_bool b a).
Definition Qleb (a b : Q) : bool := Qle_bool a b.

(** [clamp]-free helpers of the source: [min], [max], [abs] on floats. *)
Definition Qmin' (a b : Q) : Q := if Qleb a b then a else b.
Definition Qmax' (a b : Q) : Q := if Qleb b a then a else b.

(** Python's float modulo [a % n] for a positive modulus. *)
Definition pymod (a n : Q) : Q := a - n * inject_Z (Qfloor (a / n)).

(** [approach_f32(cur, tgt, inc)] *)
Definition approach_f32 (cur tgt inc : Q) : Q :=
  if Qltb cur tgt then Qmin' (cur + inc) tgt
  else if Qltb tgt cur then Qmax' (cur - inc) tgt
  else cur.

(** [approach_angle(cur, tgt, inc)] *)
Definition approach_angle (cur tgt inc : Q) : Q :=
  let d := pymod (tgt - cur + 180) 360 - 180 in
  if Qltb inc d then cur + inc
  else if Qltb d (- inc) then cur - inc
  else tgt.

(** ** Data model *)

Record Vec3f := mkVec { vx : Q; vy : Q; vz : Q }.

(** A [Surface]. Every constructor of the source ([make_box],
    [make_quad]) builds a surface from four vertices, and the collision
    code reads [verts[0]]; the vertex list is therefore kept non-empty:
    [v0] is [verts[0]] and [vrest] the others. The colour and warp fields
    are not read by the code embedded here. *)
Record Surface := mkSurface {
  v0 : Vec3f; vrest : list Vec3f; normal : Vec3f; stype : Z }.

Definition verts (s : Surface) : list Vec3f := v0 s :: vrest s.

(** [min(f(v) for v in s.verts)] and [max(...)] *)
Definition vmin (f : Vec3f -> Q) (s : Surface) : Q :=
  fold_left (fun acc v => Qmin' acc (f v)) (vrest s) (f (v0 s)).
Definition vmax (f : Vec3f -> Q) (s : Surface) : Q :=
  fold_left (fun acc v => Qmax' acc (f v)) (vrest s) (f (v0 s)).

(** ** Collision ([find_floor], [find_wall]) *)

Definition FLOOR_NONE_Y : Q := -11000.

(** The plane height [sy = d / ny] of a surface above [(x, z)]. *)
Definition plane_y (x z : Q) (s : Surface) : Q :=
  let p1 := v0 s in
  let nx := vx (normal s) in let ny := vy (normal s) in let nz := vz (normal s) in
  let d := - (x * nx + z * nz - (nx * vx p1 + ny * vy p1 + nz * vz p1)) in
  d / ny.

(** The expanded bounding-rectangle test, negated as in the source's
    [continue]. *)
Definition outside_rect (x z : Q) (s : Surface) : bool :=
  Qltb x (vmin vx s - 10) || Qltb (vmax vx s + 10) x ||
  Qltb z (vmin vz s - 10) || Qltb (vmax vz s + 10) z.

(** [abs(ny) < 0.01]: the surface is too steep to be a floor. *)
Definition too_steep (s : Surface) : bool := Qltb (Qabs (vy (normal s))) 0.01.

(** One iteration of the loop of [find_floor]. *)
Definition floor_check (x y z : Q) (acc : Q * option Surface) (s : Surface)
  : Q * option Surface :=
  let '(h, fl) := acc in
  if outside_rect x z s then acc
  else if too_steep s then acc
  else let sy := plane_y x z s in
       if Qltb h sy && Qleb sy (y + 150) then (sy, Some s) else acc.

(** [find_floor(x, y, z)] over the level's surface list [surfs]. *)
Definition find_floor (surfs : list Surface) (x y z : Q) : Q * option Surface :=
  fold_left (floor_check x y z) surfs (FLOOR_NONE_Y, None).

(** [find_wall(x, y, z, dx, dz)]: the first surface crossed by the probe. *)
Fixpoint find_wall (surfs : list Surface) (x y z dx dz : Q) : option Surface :=
  match surfs with
  | [] => None
  | s :: rest =>
      let tx := x + dx * 2 in let tz := z + dz * 2 in
      let ny := vy (normal s) in
      if Qltb 0.7 (Qabs ny) then find_wall rest x y z dx dz
      else if Qltb y (vmin vy s - 10) || Qltb (vmax vy s + 10) y
      then find_wall rest x y z dx dz
      else
        let p1 := v0 s in let nx := vx (normal s) in let nz := vz (normal s) in
        let d1 := (x - vx p1) * nx + (z - vz p1) * nz in
        let d2 := (tx - vx p1) * nx + (tz - vz p1) * nz in
        if Qltb 0 d1 && Qleb d2 0 then Some s else find_wall rest x y z dx dz
  end.

(** ** The character state ([MarioState])

    [face] is a [Vec3s] in the source of which only [face.y] is ever read
    or written; it is kept as [face_y] (a float after [approach_angle]).
    [lvl_stars : Dict[int, Set[int]]] is an association list from level
    ids to the star ids obtained there. *)
Record MarioState := mkMario {
  pos : Vec3f;
  vel : Vec3f;
  fvel : Q;
  face_y : Q;
  action : Z;
  prev_act : Z;
  astate : Z;
  atimer : Z;
  health : Z;
  coins : Z;
  stars : Z;
  lives : Z;
  floor : option Surface;
  floor_y : Q;
  wall : option Surface;
  imag : Q;
  iyaw : Q;
  peak_y : Q;
  jcount : Z;
  jtimer : Z;
  wktimer : Z;
  hurt : Z;
  inv : Z;
  lvl_stars : list (Z * list Z) }.

(** Field updates ([m.f = v]), written [with_f v m]. *)
Definition with_pos (v : Vec3f) (m : MarioState) : MarioState :=
  mkMario v (vel m) (fvel m) (face_y m) (action m) (prev_act m) (astate m) (atimer m) (health m) (coins m) (stars m) (lives m) (floor m) (floor_y m) (wall m) (imag m) (iyaw m) (peak_y m) (jcount m) (jtimer m) (wktimer m) (hurt m) (inv m) (lvl_stars m).
Definition with_vel (v : Vec3f) (m : MarioState) : MarioState :=
  mkMario (pos m) v (fvel m) (face_y m) (action m) (prev_act m) (astate m) (atimer m) (health m) (coins m) (stars m) (lives m) (floor m) (floor_y m) (wall m) (imag m) (iyaw m) (peak_y m) (jcount m) (jtimer m) (wktimer m) (hurt m) (inv m) (lvl_stars m).
Definition with_fvel (v : Q) (m : MarioState) : MarioState :=
  mkMario (pos m) (vel m) v (face_y m) (action m) (prev_act m) (astate m) (atimer m) (health m) (coins m) (stars m) (lives m) (floor m) (floor_y m) (wall m) (imag m) (iyaw m) (peak_y m) (jcount m) (jtimer m) (wktimer m) (hurt m) (inv m) (lvl_stars m).
Definition with_face_y (v : Q) (m : MarioState) : MarioState :=
  mkMario (pos m) (vel m) (fvel m) v (action m) (prev_act m) (astate m) (atimer m) (health m) (coins m) (stars m) (lives m) (floor m) (floor_y m) (wall m) (imag m) (iyaw m) (peak_y m) (jcount m) (jtimer m) (wktimer m) (hurt m) (inv m) (lvl_stars m).
Definition with_action (v : Z) (m : MarioState) : MarioState :=
  mkMario (pos m) (vel m) (fvel m) (face_y m) v (prev_act m) (astate m) (atimer m) (health m) (coins m) (stars m) (lives m) (floor m) (floor_y m) (wall m) (imag m) (iyaw m) (peak_y m) (jcount m) (jtimer m) (wktimer m) (hurt m) (inv m) (lvl_stars m).
Definition with_prev_act (v : Z) (m : MarioState) : MarioState :=
  mkMario (pos m) (vel m) (fvel m) (face_y m) (action m) v (astate m) (atimer m) (health m) (coins m) (stars m) (lives m) (floor m) (floor_y m) (wall m) (imag m) (iyaw m) (peak_y m) (jcount m) (jtimer m) (wktimer m) (hurt m) (inv m) (lvl_stars m).
Definition with_astate (v : Z) (m : MarioState) : MarioState :=
  mkMario (pos m) (vel m) (fvel m) (face_y m) (action m) (prev_act m) v (atimer m) (health m) (coins m) (stars m) (lives m) (floor m) (floor_y m) (wall m) (imag m) (iyaw m) (peak_y m) (jcount m) (jtimer m) (wktimer m) (hurt m) (inv m) (lvl_stars m).
Definition with_atimer (v : Z) (m : MarioState) : MarioState :=
  mkMario (pos m) (vel m) (fvel m) (face_y m) (action m) (prev_act m) (astate m) v (health m) (coins m) (stars m) (lives m) (floor m) (floor_y m) (wall m) (imag m) (iyaw m) (peak_y m) (jcount m) (jtimer m) (wktimer m) (hurt m) (inv m) (lvl_stars m).
Definition with_health (v : Z) (m : MarioState) : MarioState :=
  mkMario (pos m) (vel m) (fvel m) (face_y m) (action m) (prev_act m) (astate m) (atimer m) v (coins m) (stars m) (lives m) (floor m) (floor_y m) (wall m) (imag m) (iyaw m) (peak_y m) (jcount m) (jtimer m) (wktimer m) (hurt m) (inv m) (lvl_stars m).
Definition with_coins (v : Z) (m : MarioState) : MarioState :=
  mkMario (pos m) (vel m) (fvel m) (face_y m) (action m) (prev_act m) (astate m) (atimer m) (health m) v (stars m) (lives m) (floor m) (floor_y m) (wall m) (imag m) (iyaw m) (peak_y m) (jcount m) (jtimer m) (wktimer m) (hurt m) (inv m) (lvl_stars m).
Definition with_stars (v : Z) (m : MarioState) : MarioState :=
  mkMario (pos m) (vel m) (fvel m) (face_y m) (action m) (prev_act m) (astate m) (atimer m) (health m) (coins m) v (lives m) (floor m) (floor_y m) (wall m) (imag m) (iyaw m) (peak_y m) (jcount m) (jtimer m) (wktimer m) (hurt m) (inv m) (lvl_stars m).
Definition with_lives (v : Z) (m : MarioState) : MarioState :=
  mkMario (pos m) (vel m) (fvel m) (face_y m) (action m) (prev_act m) (astate m) (atimer m) (health m) (coins m) (stars m) v (floor m) (floor_y m) (wall m) (imag m) (iyaw m) (peak_y m) (jcount m) (jtimer m) (wktimer m) (hurt m) (inv m) (lvl_stars m).
Definition with_floor (v : option Surface) (m : MarioState) : MarioState :=
  mkMario (pos m) (vel m) (fvel m) (face_y m) (action m) (prev_act m) (astate m) (atimer m) (health m) (coins m) (stars m) (lives m) v (floor_y m) (wall m) (imag m) (iyaw m) (peak_y m) (jcount m) (jtimer m) (wktimer m) (hurt m) (inv m) (lvl_stars m).
Definition with_floor_y (v : Q) (m : MarioState) : MarioState :=
  mkMario (pos m) (vel m) (fvel m) (face_y m) (action m) (prev_act m) (astate m) (atimer m) (health m) (coins m) (stars m) (lives m) (floor m) v (wall m) (imag m) (iyaw m) (peak_y m) (jcount m) (jtimer m) (wktimer m) (hurt m) (inv m) (lvl_stars m).
Definition with_wall (v : option Surface) (m : MarioState) : MarioState :=
  mkMario (pos m) (vel m) (fvel m) (face_y m) (action m) (prev_act m) (astate m) (atimer m) (health m) (coins m) (stars m) (lives m) (floor m) (floor_y m) v (imag m) (iyaw m) (peak_y m) (jcount m) (jtimer m) (wktimer m) (hurt m) (inv m) (lvl_stars m).
Definition with_imag (v : Q) (m : MarioState) : MarioState :=
  mkMario (pos m) (vel m) (fvel m) (face_y m) (action m) (prev_act m) (astate m) (atimer m) (health m) (coins m) (stars m) (lives m) (floor m) (floor_y m) (wall m) v (iyaw m) (peak_y m) (jcount m) (jtimer m) (wktimer m) (hurt m) (inv m) (lvl_stars m).
Definition with_iyaw (v : Q) (m : MarioState) : MarioState :=
  mkMario (pos m) (vel m) (fvel m) (face_y m) (action m) (prev_act m) (astate m) (atimer m) (health m) (coins m) (stars m) (lives m) (floor m) (floor_y m) (wall m) (imag m) v (peak_y m) (jcount m) (jtimer m) (wktimer m) (hurt m) (inv m) (lvl_stars m).
Definition with_peak_y (v : Q) (m : MarioState) : MarioState :=
  mkMario (pos m) (vel m) (fvel m) (face_y m) (action m) (prev_act m) (astate m) (atimer m) (health m) (coins m) (stars m) (lives m) (floor m) (floor_y m) (wall m) (imag m) (iyaw m) v (jcount m) (jtimer m) (wktimer m) (hurt m) (inv m) (lvl_stars m).
Definition with_jcount (v : Z) (m : MarioState) : MarioState :=
  mkMario (pos m) (vel m) (fvel m) (face_y m) (action m) (prev_act m) (astate m) (atimer m) (health m) (coins m) (stars m) (lives m) (floor m) (floor_y m) (wall m) (imag m) (iyaw m) (peak_y m) v (jtimer m) (wktimer m) (hurt m) (inv m) (lvl_stars m).
Definition with_jtimer (v : Z) (m : MarioState) : MarioState :=
  mkMario (pos m) (vel m) (fvel m) (face_y m) (action m) (prev_act m) (astate m) (atimer m) (health m) (coins m) (stars m) (lives m) (floor m) (floor_y m) (wall m) (imag m) (iyaw m) (peak_y m) (jcount m) v (wktimer m) (hurt m) (inv m) (lvl_stars m).
Definition with_wktimer (v : Z) (m : MarioState) : MarioState :=
  mkMario (pos m) (vel m) (fvel m) (face_y m) (action m) (prev_act m) (astate m) (atimer m) (health m) (coins m) (stars m) (lives m) (floor m) (floor_y m) (wall m) (imag m) (iyaw m) (peak_y m) (jcount m) (jtimer m) v (hurt m) (inv m) (lvl_stars m).
Definition with_hurt (v : Z) (m : MarioState) : MarioState :=
  mkMario (pos m) (vel m) (fvel m) (face_y m) (action m) (prev_act m) (astate m) (atimer m) (health m) (coins m) (stars m) (lives m) (floor m) (floor_y m) (wall m) (imag m) (iyaw m) (peak_y m) (jcount m) (jtimer m) (wktimer m) v (inv m) (lvl_stars m).
Definition with_inv (v : Z) (m : MarioState) : MarioState :=
  mkMario (pos m) (vel m) (fvel m) (face_y m) (action m) (prev_act m) (astate m) (atimer m) (health m) (coins m) (stars m) (lives m) (floor m) (floor_y m) (wall m) (imag m) (iyaw m) (peak_y m) (jcount m) (jtimer m) (wktimer m) (hurt m) v (lvl_stars m).
Definition with_lvl_stars (v : list (Z * list Z)) (m : MarioState) : MarioState :=
  mkMario (pos m) (vel m) (fvel m) (face_y m) (action m) (prev_act m) (astate m) (atimer m) (health m) (coins m) (stars m) (lives m) (floor m) (floor_y m) (wall m) (imag m) (iyaw m) (peak_y m) (jcount m) (jtimer m) (wktimer m) (hurt m) (inv m) v.

(** ** Constants *)

Definition ACT_IDLE : Z := 1%Z.
Definition ACT_WALKING : Z := 4%Z.
Definition ACT_DECEL : Z := 5%Z.
Definition ACT_CROUCH : Z := 8%Z.
Definition ACT_JUMP : Z := 16%Z.
Definition ACT_DBL_JUMP : Z := 17%Z.
Definition ACT_TRIPLE : Z := 18%Z.
Definition ACT_BACKFLIP : Z := 19%Z.
Definition ACT_LONG_JUMP : Z := 20%Z.
Definition ACT_WALLKICK : Z := 21%Z.
Definition ACT_SIDEFLIP : Z := 22%Z.
Definition ACT_FREEFALL : Z := 24%Z.
Definition ACT_DIVE : Z := 26%Z.
Definition ACT_BELLY_SLIDE : Z := 27%Z.
Definition ACT_GROUND_POUND : Z := 37%Z.
Definition ACT_GP_LAND : Z := 38%Z.
Definition ACT_KNOCKBACK : Z := 64%Z.
Definition ACT_LAVA_BOOST : Z := 66%Z.
Definition ACT_STAR_DANCE : Z := 80%Z.
Definition ACT_DEATH : Z := 81%Z.

Definition GRAVITY : Q := -4.0.
Definition MAX_FALL : Q := -75.0.
Definition MAX_WALK : Q := 32.0.
Definition AIR_DRAG : Q := 0.98.

Definition IN_A : Z := 1%Z.
Definition IN_B : Z := 2%Z.
Definition IN_Z : Z := 4%Z.
Definition IN_A_D : Z := 16%Z.
Definition IN_Z_D : Z := 64%Z.

(** [Controller] *)
Record Controller := mkCtrl {
  stick_x : Q; stick_y : Q; stick_mag : Q; pressed : Z; down : Z }.

(** Python truthiness of [bits & mask]. *)
Definition has (bits mask : Z) : bool := negb (Z.eqb (Z.land bits mask) 0).

(** ** Methods of [MarioState] *)

Definition set_act (a : Z) (m : MarioState) : MarioState :=
  with_atimer 0 (with_astate 0 (with_action a (with_prev_act (action m) m))).

Definition heal (amt : Z) (m : MarioState) : MarioState :=
  with_health (Z.min 0x880 (health m + amt)) m.

Definition take_dmg (amt : Z) (m : MarioState) : MarioState :=
  if (0 <? inv m)%Z then m
  else with_inv 60 (with_hurt 10 (with_health (Z.max 0 (health m - amt)) m)).

Definition wedges (m : MarioState) : Z := Z.land (Z.shiftr (health m) 8) 15.

(** [lvl_stars.get(l, set())] *)
Fixpoint stars_of (l : Z) (d : list (Z * list Z)) : list Z :=
  match d with
  | [] => []
  | (k, ss) :: rest => if Z.eqb k l then ss else stars_of l rest
  end.

Definition has_star (l s : Z) (m : MarioState) : bool :=
  existsb (Z.eqb s) (stars_of l (lvl_stars m)).

(** [lvl_stars[l] = v] on the association list (replace or append). *)
Fixpoint dict_set (l : Z) (v : list Z) (d : list (Z * list Z)) : list (Z * list Z) :=
  match d with
  | [] => [(l, v)]
  | (k, ss) :: rest => if Z.eqb k l then (k, v) :: rest else (k, ss) :: dict_set l v rest
  end.

Definition dict_mem (l : Z) (d : list (Z * list Z)) : bool :=
  existsb (fun p => Z.eqb (fst p) l) d.

Definition get_star (l s : Z) (m : MarioState) : MarioState :=
  let m := if dict_mem l (lvl_stars m) then m else with_lvl_stars (dict_set l [] (lvl_stars m)) m in
  let cur := stars_of l (lvl_stars m) in
  if existsb (Z.eqb s) cur then m
  else with_stars (stars m + 1) (with_lvl_stars (dict_set l (cur ++ [s]) (lvl_stars m)) m).

(** Results of [ground_step] and [air_step] (the strings ['air'],
    ['ground'], ['land'], ['wall']). *)
Inductive StepResult := R_air | R_ground | R_land | R_wall.

(** ** Physics steps and action handlers

    The handlers read the level's global surface list [surfs] and the
    helpers [sins d = math.sin(math.radians(d))] and [coss]. *)
Section Physics.

Variable sins coss : Q -> Q.
Variable surfs : list Surface.

Definition update_air (m : MarioState) : MarioState :=
  let f := fvel m * AIR_DRAG in
  let vy' := vy (vel m) + GRAVITY in
  let vy'' := if Qltb vy' MAX_FALL then MAX_FALL else vy' in
  with_vel (mkVec (f * sins (face_y m)) vy'' (f * coss (face_y m))) (with_fvel f m).

(** [set_fvel(m, s)] *)
Definition set_fvel (s : Q) (m : MarioState) : MarioState :=
  with_vel (mkVec (s * sins (face_y m)) (vy (vel m)) (s * coss (face_y m))) (with_fvel s m).

(** [m.vel.x = m.vel.z = 0] *)
Definition zero_hvel (m : MarioState) : MarioState :=
  with_vel (mkVec 0 (vy (vel m)) 0) m.

Definition with_vel_y (v : Q) (m : MarioState) : MarioState :=
  with_vel (mkVec (vx (vel m)) v (vz (vel m))) m.

Definition ground_step (m : MarioState) : StepResult * MarioState :=
  let p := mkVec (vx (pos m) + vx (vel m)) (vy (pos m)) (vz (pos m) + vz (vel m)) in
  let m := with_pos p m in
  let '(fy, fl) := find_floor surfs (vx p) (vy p + 100) (vz p) in
  let m := with_floor_y fy (with_floor fl m) in
  if Qltb (fy + 10) (vy p) then (R_air, m)
  else (R_ground, with_pos (mkVec (vx p) fy (vz p)) m).

(** The loop [for _ in range(n)] of [air_step], with the quarter
    displacement [q] fixed before the loop. *)
Fixpoint air_loop (n : nat) (q : Vec3f) (m : MarioState) : StepResult * MarioState :=
  match n with
  | O => (R_air, m)
  | S n' =>
      let p := mkVec (vx (pos m) + vx q) (vy (pos m) + vy q) (vz (pos m) + vz q) in
      let m := with_pos p m in
      let '(fy, fl) := find_floor surfs (vx p) (vy p) (vz p) in
      let m := with_floor_y fy (with_floor fl m) in
      if Qleb (vy p) fy then (R_land, with_pos (mkVec (vx p) fy (vz p)) m)
      else match find_wall surfs (vx p) (vy p + 50) (vz p)
                           (sins (face_y m)) (coss (face_y m)) with
           | Some w => (R_wall, with_fvel 0 (zero_hvel (with_wall (Some w) m)))
           | None => air_loop n' q m
           end
  end.

Definition quarter (v : Vec3f) : Vec3f := mkVec (vx v / 4) (vy v / 4) (vz v / 4).

Definition air_step (m : MarioState) : StepResult * MarioState :=
  air_loop 4 (quarter (vel m)) m.

Definition incr_atimer (m : MarioState) : MarioState := with_atimer (atimer m + 1) m.

(** [ACT_WALKING if c.stick_mag>0 else ACT_IDLE] *)
Definition walk_or_idle (c : Controller) : Z :=
  if Qltb 0 (stick_mag c) then ACT_WALKING else ACT_IDLE.

Definition a_idle (m : MarioState) (c : Controller) : MarioState :=
  let m := zero_hvel (with_fvel 0 m) in
  if has (pressed c) IN_A then set_act ACT_JUMP (with_jcount 0 m)
  else if has (pressed c) IN_Z then set_act ACT_CROUCH m
  else if has (pressed c) IN_B then set_act ACT_DIVE m
  else if Qltb 0 (stick_mag c) then set_act ACT_WALKING m
  else snd (ground_step m).

(** The non-jump part of [a_walk] after the B and stick checks. *)
Definition walk_move (m : MarioState) (c : Controller) : MarioState :=
  let m := with_face_y (approach_angle (face_y m) (iyaw m) 11.25) m in
  let tgt := stick_mag c * MAX_WALK in
  let f := if Qltb (fvel m) tgt then Qmin' (fvel m + 1.5) tgt
           else Qmax' (fvel m - 1.0) tgt in
  let m := set_fvel f (with_fvel f m) in
  let '(r, m) := ground_step m in
  let m := match r with R_air => set_act ACT_FREEFALL m | _ => m end in
  if (0 <? jtimer m)%Z then with_jtimer (jtimer m - 1) m
  else with_jcount 0 m.

Definition a_walk (m : MarioState) (c : Controller) : MarioState :=
  if has (pressed c) IN_A then
    if Qltb 10 (fvel m) && has (down c) IN_Z_D then set_act ACT_LONG_JUMP m
    else
      let m := with_jcount (jcount m + 1) (with_jtimer 5 m) in
      if ((3 <=? jcount m)%Z && Qltb 15 (fvel m)) then set_act ACT_TRIPLE m
      else if (2 <=? jcount m)%Z then set_act ACT_DBL_JUMP m
      else set_act ACT_JUMP m
  else if has (pressed c) IN_B then set_act ACT_DIVE m
  else if Qeq_bool (stick_mag c) 0 then set_act ACT_DECEL m
  else walk_move m c.

Definition a_decel (m : MarioState) (c : Controller) : MarioState :=
  if has (pressed c) IN_A then
    set_act (if Qltb 8 (fvel m) then ACT_SIDEFLIP else ACT_JUMP) m
  else if Qltb 0 (stick_mag c) then set_act ACT_WALKING m
  else
    let f := approach_f32 (fvel m) 0 2.0 in
    let m := set_fvel f (with_fvel f m) in
    let m := if Qltb (Qabs (fvel m)) 0.5 then set_act ACT_IDLE m else m in
    snd (ground_step m).

Definition a_crouch (m : MarioState) (c : Controller) : MarioState :=
  let m := zero_hvel (with_fvel 0 m) in
  if negb (has (down c) IN_Z_D) then set_act ACT_IDLE m
  else if has (pressed c) IN_A then set_act ACT_BACKFLIP m
  else snd (ground_step m).

(** The [if m.atimer==0: ...] take-off lines of the airborne handlers. *)
Definition on_first (f : MarioState -> MarioState) (m : MarioState) : MarioState :=
  if (atimer m =? 0)%Z then f m else m.

Definition jump_init (m : MarioState) : MarioState :=
  on_first (fun m => with_peak_y (vy (pos m)) (with_vel_y (42.0 + Qabs (fvel m) * 0.25) m)) m.

Definition a_jump (m : MarioState) (c : Controller) : MarioState :=
  let m := jump_init m in
  if has (pressed c) IN_Z then set_act ACT_GROUND_POUND m
  else if has (pressed c) IN_B then set_act ACT_DIVE m
  else
    let '(r, m) := air_step (update_air m) in
    let m := match r with
             | R_land => set_act (walk_or_idle c) m
             | R_wall => set_act ACT_FREEFALL (with_wktimer 5 m)
             | _ => m end in
    incr_atimer m.

Definition dbl_init (m : MarioState) : MarioState :=
  on_first (fun m => with_peak_y (vy (pos m)) (with_vel_y (52.0 + Qabs (fvel m) * 0.2) m)) m.

Definition a_dbl (m : MarioState) (c : Controller) : MarioState :=
  let m := dbl_init m in
  if has (pressed c) IN_Z then set_act ACT_GROUND_POUND m
  else if has (pressed c) IN_B then set_act ACT_DIVE m
  else
    let '(r, m) := air_step (update_air m) in
    let m := match r with
             | R_land => set_act (walk_or_idle c) m
             | R_wall => set_act ACT_FREEFALL (with_wktimer 5 m)
             | _ => m end in
    incr_atimer m.

Definition triple_init (m : MarioState) : MarioState :=
  on_first (fun m => with_peak_y (vy (pos m)) (with_vel_y 69.0 m)) m.

Definition a_triple (m : MarioState) (c : Controller) : MarioState :=
  let m := triple_init m in
  if has (pressed c) IN_Z then set_act ACT_GROUND_POUND m
  else
    let '(r, m) := air_step (update_air m) in
    let m := match r with R_land => set_act (walk_or_idle c) m | _ => m end in
    incr_atimer m.

Definition backflip_init (m : MarioState) : MarioState :=
  on_first (fun m => let m := with_fvel (-10.0) (with_vel_y 62.0 m) in set_fvel (fvel m) m) m.

Definition a_backflip (m : MarioState) (c : Controller) : MarioState :=
  let m := backflip_init m in
  let '(r, m) := air_step (update_air m) in
  let m := match r with R_land => set_act ACT_IDLE (with_fvel 0 m) | _ => m end in
  incr_atimer m.

Definition sideflip_init (m : MarioState) : MarioState :=
  on_first (fun m =>
    let m := with_fvel 8.0 (with_face_y (pymod (face_y m + 180) 360) (with_vel_y 62.0 m)) in
    set_fvel (fvel m) m) m.

Definition a_sideflip (m : MarioState) (c : Controller) : MarioState :=
  let m := sideflip_init m in
  let '(r, m) := air_step (update_air m) in
  let m := match r with R_land => set_act ACT_IDLE m | _ => m end in
  incr_atimer m.

Definition longjump_init (m : MarioState) : MarioState :=
  on_first (fun m =>
    let m := with_vel_y 30.0 m in
    let m := with_fvel (Qmin' (fvel m * 1.5) 48.0) m in
    set_fvel (fvel m) m) m.

Definition a_longjump (m : MarioState) (c : Controller) : MarioState :=
  let m := longjump_init m in
  let '(r, m) := air_step (update_air m) in
  let m := match r with R_land => set_act ACT_IDLE (with_fvel 0 m) | _ => m end in
  incr_atimer m.

Definition a_freefall (m : MarioState) (c : Controller) : MarioState :=
  if has (pressed c) IN_A && (0 <? wktimer m)%Z then
    let m := with_fvel 24.0 (with_face_y (pymod (face_y m + 180) 360) m) in
    set_act ACT_WALLKICK (set_fvel (fvel m) m)
  else if has (pressed c) IN_Z then set_act ACT_GROUND_POUND m
  else if has (pressed c) IN_B then set_act ACT_DIVE m
  else
    let '(r, m) := air_step (update_air m) in
    let m := match r with
             | R_land => set_act (walk_or_idle c) m
             | R_wall => with_wktimer 5 m
             | _ => m end in
    let m := if (0 <? wktimer m)%Z then with_wktimer (wktimer m - 1) m else m in
    incr_atimer m.

Definition wallkick_init (m : MarioState) : MarioState :=
  on_first (with_vel_y 52.0) m.

Definition a_wallkick (m : MarioState) (c : Controller) : MarioState :=
  let m := wallkick_init m in
  let '(r, m) := air_step (update_air m) in
  let m := match r with R_land => set_act (walk_or_idle c) m | _ => m end in
  incr_atimer m.

Definition dive_init (m : MarioState) : MarioState :=
  on_first (fun m =>
    let m := with_vel_y 10.0 m in
    let m := with_fvel (Qmax' (fvel m) 32.0) m in
    set_fvel (fvel m) m) m.

Definition a_dive (m : MarioState) (c : Controller) : MarioState :=
  let m := dive_init m in
  let '(r, m) := air_step (update_air m) in
  let m := match r with R_land => set_act ACT_BELLY_SLIDE m | _ => m end in
  incr_atimer m.

Definition a_belly (m : MarioState) (c : Controller) : MarioState :=
  if has (pressed c) IN_A then set_act ACT_JUMP m
  else
    let f := approach_f32 (fvel m) 0 1.0 in
    let m := set_fvel f (with_fvel f m) in
    let m := if Qltb (Qabs (fvel m)) 1.0 then set_act ACT_IDLE m else m in
    snd (ground_step m).

Definition a_gp (m : MarioState) (c : Controller) : MarioState :=
  if (astate m =? 0)%Z then
    let m := incr_atimer (with_vel_y 0 (zero_hvel (with_fvel 0 m))) in
    if (10 <? atimer m)%Z then with_vel_y (-60.0) (with_astate 1 m) else m
  else
    let '(r, m) := air_step m in
    match r with R_land => set_act ACT_GP_LAND m | _ => m end.

Definition a_gpl (m : MarioState) (c : Controller) : MarioState :=
  let m := incr_atimer m in
  if (5 <? atimer m)%Z then
    if has (pressed c) IN_A then set_act ACT_JUMP m
    else if Qltb 0 (stick_mag c) then set_act ACT_WALKING m
    else if (15 <? atimer m)%Z then set_act ACT_IDLE m
    else m
  else m.

Definition knock_init (m : MarioState) : MarioState :=
  on_first (fun m => let m := with_fvel (-20.0) (with_vel_y 30.0 m) in set_fvel (fvel m) m) m.

Definition a_knock (m : MarioState) (c : Controller) : MarioState :=
  let m := knock_init m in
  let '(r, m) := air_step (update_air m) in
  let m := match r with R_land => set_act ACT_IDLE (with_fvel 0 m) | _ => m end in
  incr_atimer m.

Definition lava_init (m : MarioState) : MarioState :=
  on_first (fun m => take_dmg 0x100 (zero_hvel (with_fvel 0 (with_vel_y 60.0 m)))) m.

Definition a_lava (m : MarioState) (c : Controller) : MarioState :=
  let m := lava_init m in
  let '(r, m) := air_step (update_air m) in
  let m := match r with R_land => set_act ACT_IDLE m | _ => m end in
  incr_atimer m.

Definition a_star (m : MarioState) (c : Controller) : MarioState :=
  let m := incr_atimer (with_vel (mkVec 0 0 0) (with_fvel 0 m)) in
  if (90 <? atimer m)%Z then set_act ACT_IDLE m else m.

Definition a_death (m : MarioState) (c : Controller) : MarioState :=
  let m := zero_hvel (with_fvel 0 m) in
  let m := with_vel_y (Qmax' (vy (vel m) + GRAVITY) MAX_FALL) m in
  with_pos (mkVec (vx (pos m)) (vy (pos m) + vy (vel m)) (vz (pos m))) m.

(** [ACT_MAP] *)
Definition ACT_MAP : list (Z * (MarioState -> Controller -> MarioState)) :=
  [(ACT_IDLE, a_idle); (ACT_WALKING, a_walk); (ACT_DECEL, a_decel); (ACT_CROUCH, a_crouch);
   (ACT_JUMP, a_jump); (ACT_DBL_JUMP, a_dbl); (ACT_TRIPLE, a_triple); (ACT_BACKFLIP, a_backflip);
   (ACT_SIDEFLIP, a_sideflip); (ACT_LONG_JUMP, a_longjump); (ACT_WALLKICK, a_wallkick);
   (ACT_FREEFALL, a_freefall); (ACT_DIVE, a_dive); (ACT_BELLY_SLIDE, a_belly);
   (ACT_GROUND_POUND, a_gp); (ACT_GP_LAND, a_gpl); (ACT_KNOCKBACK, a_knock);
   (ACT_LAVA_BOOST, a_lava); (ACT_STAR_DANCE, a_star); (ACT_DEATH, a_death)].

(** [dict.get(k, default)] on an association list with distinct keys. *)
Fixpoint dict_get {A : Type} (k : Z) (d : list (Z * A)) (default : A) : A :=
  match d with
  | [] => default
  | (k', v) :: rest => if Z.eqb k' k then v else dict_get k rest default
  end.

(** The per-tick dispatch of [main]: [fn=ACT_MAP.get(mario.action,a_idle); fn(mario,ctrl)]. *)
Definition dispatch (m : MarioState) (c : Controller) : MarioState :=
  (dict_get (action m) ACT_MAP a_idle) m c.

End Physics.

(** ** Objects and [interact_objs] *)

Inductive ObjType :=
  COIN | COIN_RED | COIN_BLUE | STAR | GOOMBA | BOBOMB | BULLY | BOO
| PIRANHA | KOOPA | AMP | THWOMP | CHAIN_CHOMP | KING_BOB | BIG_BOO | BOWSER
| ONE_UP | TREE | PIPE | BOX.

(** [Obj], restricted to the fields that [interact_objs] reads or writes
    (velocity, angle, radius, height, timer, home, colour, scale, speed,
    patrol direction and bob phase are only used by the AI and renderer). *)
Record Obj := mkObj {
  otype : ObjType; opos : Vec3f; hp : Z; active : bool; ostate : Z;
  collected : bool; irange : Q; dmg : Z; ocoins : Z; star_id : Z;
  owarp : Z; flash : Z }.

Definition with_active (b : bool) (o : Obj) : Obj :=
  mkObj (otype o) (opos o) (hp o) b (ostate o) (collected o) (irange o) (dmg o)
        (ocoins o) (star_id o) (owarp o) (flash o).
Definition with_collected (b : bool) (o : Obj) : Obj :=
  mkObj (otype o) (opos o) (hp o) (active o) (ostate o) b (irange o) (dmg o)
        (ocoins o) (star_id o) (owarp o) (flash o).
Definition with_hp (v : Z) (o : Obj) : Obj :=
  mkObj (otype o) (opos o) v (active o) (ostate o) (collected o) (irange o) (dmg o)
        (ocoins o) (star_id o) (owarp o) (flash o).
Definition with_flash (v : Z) (o : Obj) : Obj :=
  mkObj (otype o) (opos o) (hp o) (active o) (ostate o) (collected o) (irange o) (dmg o)
        (ocoins o) (star_id o) (owarp o) v.

(** [o.collected=True; o.active=False] *)
Definition collect (o : Obj) : Obj := with_active false (with_collected true o).

Section Interact.

(** [math.sqrt] and [math.degrees(math.atan2(a, b))]. *)
Variable sqrt : Q -> Q.
Variable atan2_deg : Q -> Q -> Q.
(** The globals [cur_lvl] and [ctrl.pressed]. *)
Variable cur_lvl : Z.
Variable ctrl_pressed : Z.

Definition knock (amt : Z) (m : MarioState) : MarioState :=
  set_act ACT_KNOCKBACK (take_dmg amt m).

(** One iteration of the loop of [interact_objs]: the updated character,
    the updated object, and [Some w] when the loop returns [('warp', w)]. *)
Definition interact_one (m : MarioState) (o : Obj) : MarioState * Obj * option Z :=
  if negb (active o) || collected o then (m, o, None) else
  let dx := vx (pos m) - vx (opos o) in
  let dy := vy (pos m) - vy (opos o) in
  let dz := vz (pos m) - vz (opos o) in
  let d := sqrt (dx * dx + dy * dy + dz * dz) in
  if Qltb (irange o + 30) d then (m, o, None) else
  match otype o with
  | COIN | COIN_RED | COIN_BLUE =>
      (heal (0x40 * ocoins o) (with_coins (coins m + ocoins o) m), collect o, None)
  | STAR =>
      if negb (has_star cur_lvl (star_id o) m)
      then (set_act ACT_STAR_DANCE (get_star cur_lvl (star_id o) m), collect o, None)
      else (m, o, None)
  | ONE_UP => (with_lives (lives m + 1) m, collect o, None)
  | PIPE => if has ctrl_pressed IN_A then (m, o, Some (owarp o)) else (m, o, None)
  | GOOMBA | BOBOMB | KOOPA | PIRANHA =>
      if Qltb (vy (vel m)) (-5) && Qltb (vy (opos o) + 20) (vy (pos m)) then
        (with_coins (coins m + 1) (with_vel (mkVec (vx (vel m)) 30.0 (vz (vel m))) m),
         with_active false o, None)
      else if (action m =? ACT_DIVE)%Z || (action m =? ACT_GP_LAND)%Z then
        (with_coins (coins m + 1) m, with_active false o, None)
      else (knock (0x100 * dmg o) m, o, None)
  | BULLY =>
      if Qltb d (irange o) then
        let px := dx / Qmax' d 1 * 20 in let pz := dz / Qmax' d 1 * 20 in
        (with_fvel 15 (with_pos (mkVec (vx (pos m) + px) (vy (pos m)) (vz (pos m) + pz)) m),
         o, None)
      else (m, o, None)
  | BOO | BIG_BOO =>
      let fb := Qltb 90 (Qabs (atan2_deg (vx (opos o) - vx (pos m))
                                         (vz (opos o) - vz (pos m)) - face_y m)) in
      if fb && ((action m =? ACT_GROUND_POUND)%Z || (action m =? ACT_GP_LAND)%Z) then
        let o := with_flash 10 (with_hp (hp o - 1) o) in
        (m, (if (hp o <=? 0)%Z then with_active false o else o), None)
      else if negb fb && Qltb d (irange o) then (knock 0x100 m, o, None)
      else (m, o, None)
  | AMP => (knock 0x100 m, o, None)
  | THWOMP =>
      if (ostate o =? 1)%Z && Qltb d (irange o) then (knock 0x200 m, o, None)
      else (m, o, None)
  | CHAIN_CHOMP => (knock 0x300 m, o, None)
  | KING_BOB | BOWSER =>
      if Qltb (vy (vel m)) (-5) && Qltb (vy (opos o) + 30) (vy (pos m)) then
        let o := with_flash 15 (with_hp (hp o - 1) o) in
        (with_vel (mkVec (vx (vel m)) 40.0 (vz (vel m))) m,
         (if (hp o <=? 0)%Z then with_active false o else o), None)
      else (knock 0x200 m, o, None)
  | TREE | BOX => (m, o, None)
  end.

(** [interact_objs(mario)]: the loop over the global [objs], which the
    source mutates in place; an early [return ('warp', w)] leaves the
    remaining objects untouched. *)
Fixpoint interact_objs (m : MarioState) (objs : list Obj)
  : MarioState * list Obj * option Z :=
  match objs with
  | [] => (m, [], None)
  | o :: rest =>
      match interact_one m o with
      | (m', o', Some w) => (m', o' :: rest, Some w)
      | (m', o', None) =>
          let '(m'', rest', r) := interact_objs m' rest in (m'', o' :: rest', r)
      end
  end.

End Interact.

(** ** The painter's sort of [render]

    [polys.sort(key=lambda x:x[0], reverse=True)] on the list of projected
    faces [(az, colour, points, tag)]; the payload is abstracted as [A].
    Python's sort with [reverse=True] is stable: it is modelled by an
    insertion sort that places each face after every face of greater or
    equal depth already placed. *)
Section Render.

Variable A : Type.

Fixpoint insert_desc (x : Q * A) (l : list (Q * A)) : list (Q * A) :=
  match l with
  | [] => [x]
  | y :: r => if Qleb (fst x) (fst y) then y :: insert_desc x r else x :: l
  end.

Definition sort_desc (l : list (Q * A)) : list (Q * A) :=
  fold_left (fun acc x => insert_desc x acc) l [].

(** The draw loop [for z,col,pts,rt in polys: pygame.draw.polygon(...)]:
    the sequence of faces in the order they are drawn. *)
Definition draw_sequence (polys : list (Q * A)) : list (Q * A) := sort_desc polys.

End Render.

(** ** Further code of the game loop and the renderer *)

(** [n] applications of a one-tick update. *)
Fixpoint iterate {X : Type} (n : nat) (f : X -> X) (x : X) : X :=
  match n with O => x | S n' => iterate n' f (f x) end.

(** A handler run on one controller reading per tick. *)
Definition run_handler (h : MarioState -> Controller -> MarioState)
  (cs : list Controller) (m : MarioState) : MarioState :=
  fold_left h cs m.

(** The timer lines of the gameplay tick of [main], run after the action
    handler: [if mario.inv>0: mario.inv-=1] and [if mario.hurt>0: mario.hurt-=1]. *)
Definition tick_timers (m : MarioState) : MarioState :=
  let m := if (0 <? inv m)%Z then with_inv (inv m - 1) m else m in
  if (0 <? hurt m)%Z then with_hurt (hurt m - 1) m else m.

(** A tick of [main] for a character touching a damaging object: the
    timers are counted down, then [interact_objs] calls [take_dmg]. *)
Definition contact_tick (amt : Z) (m : MarioState) : MarioState :=
  take_dmg amt (tick_timers m).

(** [Particle] and [Particles.update]. The list [alive] holds the same
    particle objects, moved in place; no other reference to them exists. *)
Record Particle := mkParticle {
  ppos : Vec3f; pvel : Vec3f; pcolor : Z * Z * Z; life : Z; psize : Q }.

(** [p.pos.x+=p.vel.x; ...; p.vel.y-=0.5; p.life-=1] *)
Definition particle_move (p : Particle) : Particle :=
  mkParticle (mkVec (vx (ppos p) + vx (pvel p)) (vy (ppos p) + vy (pvel p))
                    (vz (ppos p) + vz (pvel p)))
             (mkVec (vx (pvel p)) (vy (pvel p) - 0.5) (vz (pvel p)))
             (pcolor p) (life p - 1) (psize p).

Definition particles_update (ps : list Particle) : list Particle :=
  filter (fun p => (0 <? life p)%Z) (map particle_move ps).

(** Python's [int(v)] on a float: truncation towards zero. *)
Definition py_int (v : Q) : Z :=
  if Qleb 0 v then Qfloor v else (- Qfloor (- v))%Z.

(** [_cc(c)]: [tuple(max(0, min(255, int(v))) for v in c)]. *)
Definition cc1 (v : Q) : Z := Z.max 0 (Z.min 255 (py_int v)).
Definition cc (c : Q * Q * Q) : Z * Z * Z :=
  let '(r, g, b) := c in (cc1 r, cc1 g, cc1 b).

Section Geometry.

Variable sins coss : Q -> Q.

(** [rot_pt(v, cx, cy, cz, ay)], with [math.cos(math.radians(ay))] and
    [math.sin(math.radians(ay))] written [coss ay] and [sins ay]. *)
Definition rot_pt (v : Vec3f) (cx cy cz ay : Q) : Q * Q * Q :=
  let x := vx v - cx in let y := vy v - cy in let z := vz v - cz in
  let c := coss ay in let s := sins ay in
  (x * c - z * s, y, x * s + z * c).

End Geometry.

(** [make_box(x, y, z, w, h, d, col, st)]: top, front, back, left and
    right faces (the colour and warp fields are not modelled). *)
Definition make_box (x y z w h d : Q) (st : Z) : list Surface :=
  let hw := w / 2 in let hh := h / 2 in let hd := d / 2 in
  [mkSurface (mkVec (x - hw) (y + hh) (z - hd))
     [mkVec (x + hw) (y + hh) (z - hd); mkVec (x + hw) (y + hh) (z + hd); mkVec (x - hw) (y + hh) (z + hd)]
     (mkVec 0 1 0) st;
   mkSurface (mkVec (x - hw) (y - hh) (z + hd))
     [mkVec (x + hw) (y - hh) (z + hd); mkVec (x + hw) (y + hh) (z + hd); mkVec (x - hw) (y + hh) (z + hd)]
     (mkVec 0 0 1) st;
   mkSurface (mkVec (x + hw) (y - hh) (z - hd))
     [mkVec (x - hw) (y - hh) (z - hd); mkVec (x - hw) (y + hh) (z - hd); mkVec (x + hw) (y + hh) (z - hd)]
     (mkVec 0 0 (-1)) st;
   mkSurface (mkVec (x - hw) (y - hh) (z - hd))
     [mkVec (x - hw) (y - hh) (z + hd); mkVec (x - hw) (y + hh) (z + hd); mkVec (x - hw) (y + hh) (z - hd)]
     (mkVec (-1) 0 0) st;
   mkSurface (mkVec (x + hw) (y - hh) (z + hd))
     [mkVec (x + hw) (y - hh) (z - hd); mkVec (x + hw) (y + hh) (z - hd); mkVec (x + hw) (y + hh) (z + hd)]
     (mkVec 1 0 0) st].

(** The top face of [make_box] (the first surface it appends). *)
Definition box_top (x y z w h d : Q) (st : Z) : Surface :=
  let hw := w / 2 in let hh := h / 2 in let hd := d / 2 in
  mkSurface (mkVec (x - hw) (y + hh) (z - hd))
     [mkVec (x + hw) (y + hh) (z - hd); mkVec (x + hw) (y + hh) (z + hd); mkVec (x - hw) (y + hh) (z + hd)]
     (mkVec 0 1 0) st.

(** [find_floor(x, y, z, surfaces)] of [sm644k1.x.py]: the same loop with
    the wall threshold [abs(ny) < 0.1] and a further [if ny == 0: continue]. *)
Definition floor_check_k1 (x y z : Q) (acc : Q * option Surface) (s : Surface)
  : Q * option Surface :=
  let '(height, fl) := acc in
  if outside_rect x z s then acc
  else if Qltb (Qabs (vy (normal s))) 0.1 then acc
  else if Qeq_bool (vy (normal s)) 0 then acc
  else let surf_y := plane_y x z s in
       if Qltb height surf_y && Qleb surf_y (y + 150) then (surf_y, Some s) else acc.

Definition find_floor_k1 (x y z : Q) (surfaces : list Surface) : Q * option Surface :=
  fold_left (floor_check_k1 x y z) surfaces (-11000, None).

(** How one run of [interact_objs] may change an object: its type,
    position, star id, warp target and coin value stay, its hit points
    never grow, [active] is never set back to [True] and [collected] is
    never cleared. *)
Definition obj_follows (o o' : Obj) : Prop :=
  otype o' = otype o /\ opos o' = opos o /\ star_id o' = star_id o /\
  owarp o' = owarp o /\ ocoins o' = ocoins o /\ (hp o' <= hp o)%Z /\
  (active o' = true -> active o = true) /\
  (collected o = true -> collected o' = true).

(** A warp pipe next to the origin, for evaluating [interact_objs]. *)
Definition pipe0 : Obj := mkObj PIPE (mkVec 0 0 40) 1 true 0 false 60 0 0 0 7 0.

(** The counters of [MarioState] that only object interaction changes. *)
Definition counters (m : MarioState) : Z * Z * Z * list (Z * list Z) :=
  (coins m, stars m, lives m, lvl_stars m).

(** ** Rational stand-ins used to evaluate concrete scenarios

    Truncated Taylor series of [math.sin(math.radians(d))] and
    [math.cos(math.radians(d))] after reduction into [-180, 180), and a
    Newton iteration for [math.sqrt]. They are exact at [d = 0]
    ([sin 0 = 0], [cos 0 = 1]) and at [sqrt 0 = 0], the only points at
    which the scenarios below evaluate them. *)
Definition deg_to_rad (d : Q) : Q := (pymod (d + 180) 360 - 180) * (355 # 113) / 180.

Definition sins_q (d : Q) : Q :=
  let r := deg_to_rad d in
  r - r ^ 3 / 6 + r ^ 5 / 120 - r ^ 7 / 5040 + r ^ 9 / 362880.

Definition coss_q (d : Q) : Q :=
  let r := deg_to_rad d in
  1 - r ^ 2 / 2 + r ^ 4 / 24 - r ^ 6 / 720 + r ^ 8 / 40320.

Fixpoint newton (n : nat) (a g : Q) : Q :=
  match n with O => g | S n' => newton n' a (Qred ((g + a / g) / 2)) end.

Definition sqrt_q (a : Q) : Q := if Qleb a 0 then 0 else newton 8 a ((a + 1) / 2).

(** ** Reflection of the boolean comparisons *)

Lemma Qltb_true (a b : Q) : Qltb a b = true <-> a < b.
Proof.
  unfold Qltb. rewrite negb_true_iff. split; intro H.
  - apply Qnot_le_lt. intro H'. apply Qle_bool_iff in H'. congruence.
  - destruct (Qle_bool b a) eqn:E; [|reflexivity].
    apply Qle_bool_iff in E. exfalso. apply (Qlt_not_le a b); assumption.
Qed.

Lemma Qltb_false (a b : Q) : Qltb a b = false <-> b <= a.
Proof.
  unfold Qltb. rewrite negb_false_iff. apply Qle_bool_iff.
Qed.

Lemma Qleb_true (a b : Q) : Qleb a b = true <-> a <= b.
Proof. apply Qle_bool_iff. Qed.

Lemma Qleb_false (a b : Q) : Qleb a b = false <-> b < a.
Proof.
  split; intro H.
  - apply Qnot_le_lt. intro H'. apply Qle_bool_iff in H'. unfold Qleb in H. congruence.
  - destruct (Qleb a b) eqn:E; [|reflexivity].
    apply Qleb_true in E. exfalso. apply (Qlt_not_le b a); assumption.
Qed.

(** ** Facts about [find_floor] *)

(** A surface is floor-eligible at [(x, y, z)]: its expanded rectangle
    contains [(x, z)], it is not too steep, and its plane height is within
    the step allowance. *)
Definition floor_eligible (x y z : Q) (s : Surface) : bool :=
  negb (outside_rect x z s) && negb (too_steep s) && Qleb (plane_y x z s) (y + 150).

Lemma floor_check_cases (x y z h : Q) (fl : option Surface) (s : Surface) :
  (floor_eligible x y z s = true /\ h < plane_y x z s /\
     floor_check x y z (h, fl) s = (plane_y x z s, Some s))
  \/ ((floor_eligible x y z s = true -> plane_y x z s <= h) /\
      floor_check x y z (h, fl) s = (h, fl)).
Proof.
  unfold floor_check, floor_eligible.
  destruct (outside_rect x z s); simpl.
  - right. split; [discriminate | reflexivity].
  - destruct (too_steep s); simpl.
    + right. split; [discriminate | reflexivity].
    + destruct (Qltb h (plane_y x z s)) eqn:E1; destruct (Qleb (plane_y x z s) (y + 150)) eqn:E2;
        simpl.
      * left. apply Qltb_true in E1. auto.
      * right. split; [discriminate | reflexivity].
      * right. split; [|reflexivity]. intros _. apply Qltb_false in E1. exact E1.
      * right. split; [discriminate | reflexivity].
Qed.

(** The loop invariant of [find_floor], from an arbitrary accumulator. *)
Lemma floor_fold_spec (x y z : Q) (ss : list Surface) :
  forall h0 fl0,
  let '(h, fl) := fold_left (floor_check x y z) ss (h0, fl0) in
  (forall s', In s' ss -> floor_eligible x y z s' = true -> plane_y x z s' <= h) /\
  h0 <= h /\
  ((h, fl) = (h0, fl0) \/
   exists pre s post, ss = pre ++ s :: post /\ fl = Some s /\ h = plane_y x z s /\
     floor_eligible x y z s = true /\ h0 < h /\
     (forall s', In s' pre -> floor_eligible x y z s' = true -> plane_y x z s' < h)).
Proof.
  induction ss as [|s rest IH]; intros h0 fl0; cbn [fold_left].
  - split; [intros _ []|]. split; [apply Qle_refl | left; reflexivity].
  - destruct (floor_check_cases x y z h0 fl0 s) as [(Hel & Hlt & ->) | (Hle & ->)].
    + specialize (IH (plane_y x z s) (Some s)).
      destruct (fold_left (floor_check x y z) rest (plane_y x z s, Some s)) as [h fl].
      destruct IH as (Hall & Hmono & Hcase).
      split; [|split].
      * intros s' [<-|Hin] He; [exact Hmono | exact (Hall s' Hin He)].
      * apply Qlt_le_weak. apply Qlt_le_trans with (plane_y x z s); assumption.
      * right. destruct Hcase as [Heq | (pre & s1 & post & -> & Hfl & Hh & He1 & Hlt1 & Hpre)].
        -- inversion Heq; subst. exists [], s, rest. repeat split; auto.
           intros s' [].
        -- exists (s :: pre), s1, post. repeat split; auto.
           ++ apply Qlt_trans with (plane_y x z s); assumption.
           ++ intros s' [<-|Hin] He; [exact Hlt1 | exact (Hpre s' Hin He)].
    + specialize (IH h0 fl0).
      destruct (fold_left (floor_check x y z) rest (h0, fl0)) as [h fl].
      destruct IH as (Hall & Hmono & Hcase).
      split; [|split; [exact Hmono|]].
      * intros s' [<-|Hin] He.
        -- apply Qle_trans with h0; [exact (Hle He) | exact Hmono].
        -- exact (Hall s' Hin He).
      * destruct Hcase as [Heq | (pre & s1 & post & -> & Hfl & Hh & He1 & Hlt1 & Hpre)].
        -- left. exact Heq.
        -- right. exists (s :: pre), s1, post. repeat split; auto.
           intros s' [<-|Hin] He.
           ++ apply Qle_lt_trans with h0; [exact (Hle He) | exact Hlt1].
           ++ exact (Hpre s' Hin He).
Qed.

(** A flat square floor of half-width [hw] centred on [(0, y, 0)], as
    [make_ground(0, 0, 2*hw, 2*hw, y, ...)] builds it (normal [(0, 1, 0)]). *)
Definition flat_floor (hw y : Q) : Surface :=
  mkSurface (mkVec (- hw) y (- hw)) [mkVec hw y (- hw); mkVec hw y hw; mkVec (- hw) y hw]
            (mkVec 0 1 0) 0.

Example flat_floor_height : find_floor [flat_floor 100 0] 0 50 0 = (0 / 1, Some (flat_floor 100 0)).
Proof. vm_compute. reflexivity. Qed.

(** A surface qualifies for [find_floor] when it is floor-eligible and
    its height is above the initial sentinel. *)
Definition floor_qualifies (x y z : Q) (s : Surface) : bool :=
  floor_eligible x y z s && Qltb FLOOR_NONE_Y (plane_y x z s).

(** C1 (amended). [find_floor] returns the highest plane height among the
    surfaces whose expanded x/z rectangle contains [(x, z)], whose normal
    satisfies [|ny| >= 0.01] and whose height lies in [(-11000, y + 150]],
    together with the first such surface in list order; when no surface
    qualifies it returns the sentinel [(-11000, None)]. *)
Theorem find_floor_highest_first (ss : list Surface) (x y z : Q) :
  let '(h, fl) := find_floor ss x y z in
  (fl = None /\ h = FLOOR_NONE_Y /\
   forall s, In s ss -> floor_qualifies x y z s = false)
  \/ (exists pre s post, ss = pre ++ s :: post /\ fl = Some s /\ h = plane_y x z s /\
        floor_qualifies x y z s = true /\
        (forall s', In s' ss -> floor_qualifies x y z s' = true -> plane_y x z s' <= h) /\
        (forall s', In s' pre -> floor_qualifies x y z s' = true -> plane_y x z s' < h)).
Proof.
  unfold find_floor. pose proof (floor_fold_spec x y z ss FLOOR_NONE_Y None) as H.
  destruct (fold_left (floor_check x y z) ss (FLOOR_NONE_Y, None)) as [h fl].
  destruct H as (Hall & _ & [Heq | (pre & s & post & Hss & Hfl & Hh & He & Hlt & Hpre)]).
  - inversion Heq; subst. left. repeat split.
    intros s Hin. unfold floor_qualifies.
    destruct (floor_eligible x y z s) eqn:He; [|reflexivity]. simpl.
    apply Qltb_false. exact (Hall s Hin He).
  - right. exists pre, s, post. repeat split; auto.
    + unfold floor_qualifies. rewrite He. simpl. apply Qltb_true. rewrite <- Hh. exact Hlt.
    + intros s' Hin Hq. unfold floor_qualifies in Hq. apply andb_true_iff in Hq.
      exact (Hall s' Hin (proj1 Hq)).
    + intros s' Hin Hq. unfold floor_qualifies in Hq. apply andb_true_iff in Hq.
      exact (Hpre s' Hin (proj1 Hq)).
Qed.

(** C1 (counterexample). A flat floor at height [-12000] is floor-eligible
    under the query point [(0, 0, 0)] (inside its rectangle, [ny = 1],
    [-12000 <= 0 + 150]), yet [find_floor] returns the sentinel with no
    surface: heights at or below [-11000] are never selected. *)
Lemma find_floor_deep_floor_ignored :
  floor_eligible 0 0 0 (flat_floor 100 (-12000)) = true /\
  plane_y 0 0 (flat_floor 100 (-12000)) == -12000 /\
  find_floor [flat_floor 100 (-12000)] 0 0 0 = (FLOOR_NONE_Y, None).
Proof. vm_compute. split; [reflexivity | split; reflexivity]. Qed.

(** C9 (amended). When [find_floor] returns a surface, the returned
    height is at most [y + 150]; when it returns none, the height is the
    sentinel [-11000], whatever [y] is. *)
Theorem find_floor_below_step (ss : list Surface) (x y z : Q) :
  let '(h, fl) := find_floor ss x y z in
  match fl with
  | Some _ => h <= y + 150
  | None => h = FLOOR_NONE_Y
  end.
Proof.
  unfold find_floor. pose proof (floor_fold_spec x y z ss FLOOR_NONE_Y None) as H.
  destruct (fold_left (floor_check x y z) ss (FLOOR_NONE_Y, None)) as [h fl].
  destruct H as (_ & _ & [Heq | (pre & s & post & _ & Hfl & Hh & He & _ & _)]).
  - inversion Heq; subst. reflexivity.
  - subst fl. rewrite Hh. unfold floor_eligible in He.
    apply andb_true_iff in He. apply Qleb_true. exact (proj2 He).
Qed.

(** C9 (counterexample). Below [y = -11150] the sentinel height exceeds
    [y + 150]: at [y = -20000] with no surface, [find_floor] returns
    [-11000 > -19850]. *)
Lemma find_floor_sentinel_above_query :
  find_floor [] 0 (-20000) 0 = (FLOOR_NONE_Y, None) /\ -20000 + 150 < FLOOR_NONE_Y.
Proof. split; [reflexivity | vm_compute; reflexivity]. Qed.

(** ** The quarter-stepped [air_step] *)

Definition vadd (p q : Vec3f) : Vec3f := mkVec (vx p + vx q) (vy p + vy q) (vz p + vz q).

(** The position after adding the sub-step [q] to [p], [k] times. *)
Fixpoint substep_pos (k : nat) (q p : Vec3f) : Vec3f :=
  match k with O => p | S k' => substep_pos k' q (vadd p q) end.

Section AirSpec.

Variable sins coss : Q -> Q.
Variable surfs : list Surface.
Variable q : Vec3f.
Variable m : MarioState.

Let P (k : nat) : Vec3f := substep_pos k q (pos m).
Let ff (k : nat) : Q * option Surface := find_floor surfs (vx (P k)) (vy (P k)) (vz (P k)).

(** The character is at or below the floor after sub-step [k]. *)
Definition landed_at (k : nat) : bool := Qleb (vy (P k)) (fst (ff k)).
(** The wall probe after sub-step [k]. *)
Definition wall_at (k : nat) : option Surface :=
  find_wall surfs (vx (P k)) (vy (P k) + 50) (vz (P k)) (sins (face_y m)) (coss (face_y m)).
(** The state after sub-step [k] and its floor query. *)
Definition after_substep (k : nat) : MarioState :=
  with_floor_y (fst (ff k)) (with_floor (snd (ff k)) (with_pos (P k) m)).
(** Snapped onto the floor after sub-step [k] ([m.pos.y=fy]). *)
Definition landed_state (k : nat) : MarioState :=
  with_pos (mkVec (vx (P k)) (fst (ff k)) (vz (P k))) (after_substep k).
(** Stopped by the wall [w] after sub-step [k]. *)
Definition wall_state (k : nat) (w : Surface) : MarioState :=
  with_fvel 0 (zero_hvel (with_wall (Some w) (after_substep k))).

End AirSpec.

Lemma after_substep_shift (sins coss : Q -> Q) (surfs : list Surface) (q : Vec3f)
  (m : MarioState) (j : nat) :
  let m1 := after_substep surfs q m 1 in
  after_substep surfs q m1 j = after_substep surfs q m (S j) /\
  landed_at surfs q m1 j = landed_at surfs q m (S j) /\
  wall_at sins coss surfs q m1 j = wall_at sins coss surfs q m (S j) /\
  landed_state surfs q m1 j = landed_state surfs q m (S j) /\
  (forall w, wall_state surfs q m1 j w = wall_state surfs q m (S j) w).
Proof. destruct m. repeat split; reflexivity. Qed.

Lemma air_loop_spec (sins coss : Q -> Q) (surfs : list Surface) (q : Vec3f) (n : nat) :
  forall m,
  (exists k, (1 <= k <= n)%nat /\
     (forall j, (1 <= j < k)%nat ->
        landed_at surfs q m j = false /\ wall_at sins coss surfs q m j = None) /\
     landed_at surfs q m k = true /\
     air_loop sins coss surfs n q m = (R_land, landed_state surfs q m k))
  \/ (exists k w, (1 <= k <= n)%nat /\
     (forall j, (1 <= j < k)%nat ->
        landed_at surfs q m j = false /\ wall_at sins coss surfs q m j = None) /\
     landed_at surfs q m k = false /\ wall_at sins coss surfs q m k = Some w /\
     air_loop sins coss surfs n q m = (R_wall, wall_state surfs q m k w))
  \/ ((forall j, (1 <= j <= n)%nat ->
        landed_at surfs q m j = false /\ wall_at sins coss surfs q m j = None) /\
      air_loop sins coss surfs n q m = (R_air, match n with O => m | _ => after_substep surfs q m n end)).
Proof.
  induction n as [|n IH]; intros m.
  - right; right. split; [intros j Hj; lia | reflexivity].
  - destruct (landed_at surfs q m 1) eqn:HL.
    + left. exists 1%nat. split; [lia|]. split; [intros j Hj; lia|]. split; [exact HL|].
      unfold landed_at in HL. simpl in HL |- *.
      destruct (find_floor surfs _ _ _) as [fy fl] eqn:Ef. simpl in HL. rewrite HL.
      unfold landed_state, after_substep. simpl. rewrite Ef. reflexivity.
    + destruct (wall_at sins coss surfs q m 1) as [w|] eqn:HW.
      * right; left. exists 1%nat, w. split; [lia|]. split; [intros j Hj; lia|].
        split; [exact HL|]. split; [exact HW|].
        unfold landed_at in HL. unfold wall_at in HW. simpl in HL, HW |- *.
        destruct (find_floor surfs _ _ _) as [fy fl] eqn:Ef. simpl in HL. rewrite HL.
        rewrite HW. unfold wall_state, after_substep. simpl. rewrite Ef. reflexivity.
      * assert (Hstep : air_loop sins coss surfs (S n) q m =
                        air_loop sins coss surfs n q (after_substep surfs q m 1)).
        { unfold landed_at in HL. unfold wall_at in HW. simpl in HL, HW |- *.
          destruct (find_floor surfs _ _ _) as [fy fl] eqn:Ef. simpl in HL. rewrite HL.
          rewrite HW. unfold after_substep. simpl. rewrite Ef. reflexivity. }
        rewrite Hstep.
        destruct (IH (after_substep surfs q m 1)) as
          [(k & Hk & Hq & Hl & Heq) | [(k & w & Hk & Hq & Hl & Hw & Heq) | (Hq & Heq)]].
        -- left. exists (S k). destruct (after_substep_shift sins coss surfs q m k) as (_ & E2 & _ & E4 & _).
           split; [lia|]. split.
           ++ intros j Hj. destruct (Nat.eq_dec j 1) as [->|Hne]; [auto|].
              destruct j as [|j]; [lia|].
              destruct (after_substep_shift sins coss surfs q m j) as (_ & F2 & F3 & _).
              rewrite <- F2, <- F3. apply Hq. lia.
           ++ rewrite <- E2, <- E4. auto.
        -- right; left. exists (S k), w.
           destruct (after_substep_shift sins coss surfs q m k) as (_ & E2 & E3 & _ & E5).
           split; [lia|]. split.
           ++ intros j Hj. destruct (Nat.eq_dec j 1) as [->|Hne]; [auto|].
              destruct j as [|j]; [lia|].
              destruct (after_substep_shift sins coss surfs q m j) as (_ & F2 & F3 & _).
              rewrite <- F2, <- F3. apply Hq. lia.
           ++ rewrite <- E2, <- E3, <- E5. auto.
        -- right; right. split.
           ++ intros j Hj. destruct (Nat.eq_dec j 1) as [->|Hne]; [auto|].
              destruct j as [|j]; [lia|].
              destruct (after_substep_shift sins coss surfs q m j) as (_ & F2 & F3 & _).
              rewrite <- F2, <- F3. apply Hq. lia.
           ++ rewrite Heq. destruct n as [|n']; [reflexivity|].
              destruct (after_substep_shift sins coss surfs q m (S n')) as (E1 & _).
              exact (f_equal _ E1).
Qed.

(** C2. [air_step] adds the quarter displacement [vel/4] to the position
    four times (the four sub-steps add up to the whole displacement);
    after each sub-step it queries [find_floor] and then [find_wall]: the
    first sub-step that ends at or below the floor snaps onto it and
    returns ['land'], the first one that instead hits a wall zeroes the
    horizontal velocity and returns ['wall'], and only when none of the
    four sub-steps does either does it return ['air']. *)
Theorem air_step_quarter_steps (sins coss : Q -> Q) (surfs : list Surface) (m : MarioState) :
  let q := quarter (vel m) in
  let quiet j := landed_at surfs q m j = false /\ wall_at sins coss surfs q m j = None in
  (vx (substep_pos 4 q (pos m)) == vx (pos m) + vx (vel m) /\
   vy (substep_pos 4 q (pos m)) == vy (pos m) + vy (vel m) /\
   vz (substep_pos 4 q (pos m)) == vz (pos m) + vz (vel m)) /\
  ((exists k, (1 <= k <= 4)%nat /\ (forall j, (1 <= j < k)%nat -> quiet j) /\
      landed_at surfs q m k = true /\
      air_step sins coss surfs m = (R_land, landed_state surfs q m k))
   \/ (exists k w, (1 <= k <= 4)%nat /\ (forall j, (1 <= j < k)%nat -> quiet j) /\
      landed_at surfs q m k = false /\ wall_at sins coss surfs q m k = Some w /\
      air_step sins coss surfs m = (R_wall, wall_state surfs q m k w))
   \/ ((forall j, (1 <= j <= 4)%nat -> quiet j) /\
      air_step sins coss surfs m = (R_air, after_substep surfs q m 4))).
Proof.
  intros q quiet. split.
  - subst q. simpl. repeat split; field.
  - exact (air_loop_spec sins coss surfs q 4 m).
Qed.

(** ** The per-tick dispatch *)

(** [MarioState()] with its default field values. *)
Definition mario0 : MarioState :=
  mkMario (mkVec 0 0 0) (mkVec 0 0 0) 0 0 ACT_IDLE ACT_IDLE 0 0 0x880 0 0 4
          None (-10000) None 0 0 0 0 0 0 0 0 [].

Definition ctrl0 : Controller := mkCtrl 0 0 0 0 0.

Lemma dict_get_in {X : Type} (k : Z) (v def : X) (d : list (Z * X)) :
  NoDup (map fst d) -> In (k, v) d -> dict_get k d def = v.
Proof.
  induction d as [|[k' v'] rest IH]; simpl; [intros _ []|].
  intros Hnd [Heq | Hin].
  - inversion Heq; subst. rewrite Z.eqb_refl. reflexivity.
  - inversion Hnd as [|? ? Hnotin Hnd']; subst.
    destruct (Z.eqb_spec k' k) as [->|Hne].
    + exfalso. apply Hnotin. apply (in_map fst rest (k, v)). exact Hin.
    + apply IH; assumption.
Qed.

Lemma dict_get_notin {X : Type} (k : Z) (def : X) (d : list (Z * X)) :
  ~ In k (map fst d) -> dict_get k d def = def.
Proof.
  induction d as [|[k' v'] rest IH]; simpl; [reflexivity|].
  intros Hn. destruct (Z.eqb_spec k' k) as [->|Hne].
  - exfalso. apply Hn. left. reflexivity.
  - apply IH. intro H. apply Hn. right. exact H.
Qed.

Lemma act_map_keys (sins coss : Q -> Q) (surfs : list Surface) :
  map fst (ACT_MAP sins coss surfs) =
  [ACT_IDLE; ACT_WALKING; ACT_DECEL; ACT_CROUCH; ACT_JUMP; ACT_DBL_JUMP; ACT_TRIPLE;
   ACT_BACKFLIP; ACT_SIDEFLIP; ACT_LONG_JUMP; ACT_WALLKICK; ACT_FREEFALL; ACT_DIVE;
   ACT_BELLY_SLIDE; ACT_GROUND_POUND; ACT_GP_LAND; ACT_KNOCKBACK; ACT_LAVA_BOOST;
   ACT_STAR_DANCE; ACT_DEATH].
Proof. reflexivity. Qed.

(** C3. The dispatch is total and unambiguous: the keys of [ACT_MAP] are
    distinct, so an action id with an entry runs exactly that handler, and
    every id without an entry runs [a_idle]. *)
Theorem dispatch_total (sins coss : Q -> Q) (surfs : list Surface)
  (m : MarioState) (c : Controller) :
  NoDup (map fst (ACT_MAP sins coss surfs)) /\
  (forall h, In (action m, h) (ACT_MAP sins coss surfs) ->
     dispatch sins coss surfs m c = h m c) /\
  (~ In (action m) (map fst (ACT_MAP sins coss surfs)) ->
     dispatch sins coss surfs m c = a_idle surfs m c).
Proof.
  assert (Hnd : NoDup (map fst (ACT_MAP sins coss surfs))).
  { rewrite act_map_keys.
    repeat (constructor; [cbn; intuition discriminate|]). constructor. }
  split; [exact Hnd|]. split.
  - intros h Hin. unfold dispatch. rewrite (dict_get_in _ h _ _ Hnd Hin). reflexivity.
  - intros Hn. unfold dispatch. rewrite (dict_get_notin _ _ _ Hn). reflexivity.
Qed.

(** An action id outside the table ([0x999]) is handled by [a_idle]. *)
Lemma dispatch_total_witness :
  ~ In 0x999%Z (map fst (ACT_MAP sins_q coss_q [flat_floor 100 0])) /\
  dispatch sins_q coss_q [flat_floor 100 0] (with_action 0x999 mario0) ctrl0 =
  a_idle [flat_floor 100 0] (with_action 0x999 mario0) ctrl0.
Proof.
  assert (H : ~ In 0x999%Z (map fst (ACT_MAP sins_q coss_q [flat_floor 100 0]))).
  { rewrite act_map_keys. cbn. intuition discriminate. }
  split; [exact H|].
  exact (proj2 (proj2 (dispatch_total sins_q coss_q [flat_floor 100 0]
                          (with_action 0x999 mario0) ctrl0)) H).
Defined.

(** ** The jump chain *)

Lemma air_loop_vel_y (sins coss : Q -> Q) (surfs : list Surface) (n : nat) (q : Vec3f) :
  forall m, vy (vel (snd (air_loop sins coss surfs n q m))) = vy (vel m).
Proof.
  induction n as [|n IH]; intros m; [reflexivity|]. cbn [air_loop].
  destruct (find_floor surfs _ _ _) as [fy fl].
  destruct (Qleb _ fy); [reflexivity|].
  destruct (find_wall _ _ _ _ _ _) as [w|]; [reflexivity|].
  rewrite IH. reflexivity.
Qed.

Lemma set_act_vel (a : Z) (m : MarioState) : vel (set_act a m) = vel m.
Proof. reflexivity. Qed.

(** C4 (amended). (1) A jump press while walking first checks the long
    jump ([fvel > 10] with Z held), which leaves the counter alone;
    otherwise it sets the window timer to 5, increments the counter, and
    goes to the triple jump when the counter was at least 2 and
    [fvel > 15], else to the double jump when the counter was at least 1,
    else to the single jump. (2) A walking tick with the stick held and no
    A or B press decrements a positive timer and otherwise resets the
    counter to 0; a jump from idle resets it to 0. (3) On its first tick
    the triple jump sets the vertical velocity to 69.0 whatever the
    forward speed: it stays 69.0 when Z is pressed (ground pound) and is
    otherwise 69.0 plus one tick of gravity after the air step. *)
Theorem walk_jump_chain (sins coss : Q -> Q) (surfs : list Surface) :
  (forall m c, has (pressed c) IN_A = true ->
     let m' := a_walk sins coss surfs m c in
     if Qltb 10 (fvel m) && has (down c) IN_Z_D
     then action m' = ACT_LONG_JUMP /\ jcount m' = jcount m
     else jcount m' = (jcount m + 1)%Z /\ jtimer m' = 5%Z /\
          action m' = (if (2 <=? jcount m)%Z && Qltb 15 (fvel m) then ACT_TRIPLE
                       else if (1 <=? jcount m)%Z then ACT_DBL_JUMP else ACT_JUMP)) /\
  (forall m c, has (pressed c) IN_A = false -> has (pressed c) IN_B = false ->
     Qeq_bool (stick_mag c) 0 = false ->
     let m' := a_walk sins coss surfs m c in
     jcount m' = (if (0 <? jtimer m)%Z then jcount m else 0%Z) /\
     jtimer m' = (if (0 <? jtimer m)%Z then jtimer m - 1 else jtimer m)%Z) /\
  (forall m c, has (pressed c) IN_A = true ->
     action (a_idle surfs m c) = ACT_JUMP /\ jcount (a_idle surfs m c) = 0%Z) /\
  (forall m c, atimer m = 0%Z ->
     vy (vel (a_triple sins coss surfs m c)) =
       (if has (pressed c) IN_Z then 69.0 else 69.0 + GRAVITY)).
Proof.
  split; [|split; [|split]].
  - intros m c HA. unfold a_walk. rewrite HA.
    destruct (Qltb 10 (fvel m) && has (down c) IN_Z_D); [split; reflexivity|].
    cbn [jcount jtimer with_jcount with_jtimer].
    assert (E3 : (3 <=? jcount m + 1)%Z = (2 <=? jcount m)%Z).
    { destruct (Z.leb_spec 3 (jcount m + 1)); destruct (Z.leb_spec 2 (jcount m)); lia. }
    assert (E2 : (2 <=? jcount m + 1)%Z = (1 <=? jcount m)%Z).
    { destruct (Z.leb_spec 2 (jcount m + 1)); destruct (Z.leb_spec 1 (jcount m)); lia. }
    rewrite E3, E2.
    replace (fvel (with_jcount (jcount m + 1) (with_jtimer 5 m))) with (fvel m) by reflexivity.
    destruct ((2 <=? jcount m)%Z && Qltb 15 (fvel m)); [repeat split; reflexivity|].
    destruct (1 <=? jcount m)%Z; repeat split; reflexivity.
  - intros m c HA HB HS. unfold a_walk. rewrite HA, HB, HS. unfold walk_move.
    destruct (ground_step surfs _) as [r m2] eqn:Eg.
    assert (Ej : jtimer m2 = jtimer m /\ jcount m2 = jcount m).
    { unfold ground_step in Eg. destruct (find_floor surfs _ _ _) as [fy fl].
      destruct (Qltb _ _); inversion Eg; subst; split; reflexivity. }
    destruct Ej as [Ejt Ejc].
    assert (Ej' : jtimer (match r with R_air => set_act ACT_FREEFALL m2 | _ => m2 end) = jtimer m /\
                  jcount (match r with R_air => set_act ACT_FREEFALL m2 | _ => m2 end) = jcount m).
    { destruct r; split; assumption. }
    destruct Ej' as [Ejt' Ejc'].
    destruct (match r with R_air => set_act ACT_FREEFALL m2 | _ => m2 end) as [] eqn:Em.
    cbn [jtimer jcount] in Ejt', Ejc' |- *. subst.
    destruct (0 <? jtimer m)%Z; split; reflexivity.
  - intros m c HA. unfold a_idle. cbn [pressed]. rewrite HA. split; reflexivity.
  - intros m c H0. unfold a_triple, triple_init, on_first. rewrite H0. cbn [Z.eqb].
    destruct (has (pressed c) IN_Z); [reflexivity|].
    destruct (air_step sins coss surfs _) as [r m2] eqn:Ea.
    assert (Hv : vy (vel m2) = 69.0 + GRAVITY).
    { unfold air_step in Ea.
      pose proof (air_loop_vel_y sins coss surfs 4 (quarter (vel (update_air sins coss
        (with_peak_y (vy (pos m)) (with_vel_y 69.0 m))))) (update_air sins coss
        (with_peak_y (vy (pos m)) (with_vel_y 69.0 m)))) as Hl.
      rewrite Ea in Hl. simpl in Hl. rewrite Hl. reflexivity. }
    destruct r; exact Hv.
Qed.

(** A walking state with jump counter [jc], window timer [jt] and forward
    speed [f]; a controller pressing A, with Z held when [zd]. *)
Definition walking_state (jc jt : Z) (f : Q) : MarioState :=
  with_fvel f (with_jtimer jt (with_jcount jc (with_action ACT_WALKING mario0))).
Definition press_a (zd : bool) : Controller :=
  mkCtrl 0 0 1 IN_A (if zd then IN_Z_D else 0%Z).

Lemma walk_jump_chain_witness :
  has (pressed (press_a false)) IN_A = true /\
  action (a_walk sins_q coss_q [flat_floor 100 0] (walking_state 2 3 20) (press_a false))
    = ACT_TRIPLE.
Proof.
  split; [reflexivity|].
  pose proof (proj1 (walk_jump_chain sins_q coss_q [flat_floor 100 0])
                (walking_state 2 3 20) (press_a false) eq_refl) as H.
  assert (Hc : Qltb 10 (fvel (walking_state 2 3 20)) && has (down (press_a false)) IN_Z_D
               = false) by reflexivity.
  cbv zeta in H. rewrite Hc in H. destruct H as (_ & _ & H). rewrite H. reflexivity.
Defined.

(** C4 (counterexample). Three walking jump presses the claim gets wrong:
    counter 2 at low speed gives a double jump (not a single jump);
    counter 2 at speed 20 with Z held gives a long jump (not a triple
    jump); counter 1 with the window timer already at 0 still gives a
    double jump (the counter was not reset). *)
Lemma walk_jump_chain_counterexample :
  action (a_walk sins_q coss_q [flat_floor 100 0] (walking_state 2 3 0) (press_a false))
    = ACT_DBL_JUMP /\
  action (a_walk sins_q coss_q [flat_floor 100 0] (walking_state 2 3 20) (press_a true))
    = ACT_LONG_JUMP /\
  action (a_walk sins_q coss_q [flat_floor 100 0] (walking_state 1 0 0) (press_a false))
    = ACT_DBL_JUMP.
Proof. vm_compute. repeat split. Qed.

(** ** Damage and healing *)

(** C5. [take_dmg] is gated on the invulnerability timer: with [inv > 0]
    it leaves the whole state unchanged; after any call [inv] is positive,
    so a second call in the same window (no decrement in between) changes
    nothing; and damage never makes health negative. *)
Theorem take_dmg_window (m : MarioState) (amt amt2 : Z) (Hh : (0 <= health m)%Z) :
  ((0 < inv m)%Z -> take_dmg amt m = m) /\
  (0 < inv (take_dmg amt m))%Z /\
  take_dmg amt2 (take_dmg amt m) = take_dmg amt m /\
  health (take_dmg amt2 (take_dmg amt m)) = health (take_dmg amt m) /\
  (0 <= health (take_dmg amt m))%Z.
Proof.
  assert (Hgate : forall m' a, (0 < inv m')%Z -> take_dmg a m' = m').
  { intros m' a H. unfold take_dmg. apply Z.ltb_lt in H. rewrite H. reflexivity. }
  assert (Hinv : (0 < inv (take_dmg amt m))%Z).
  { unfold take_dmg. destruct (Z.ltb_spec 0 (inv m)) as [H|H]; [exact H | reflexivity]. }
  split; [apply Hgate|]. split; [exact Hinv|].
  split; [apply Hgate; exact Hinv|]. split; [rewrite (Hgate _ amt2 Hinv); reflexivity|].
  unfold take_dmg. destruct (0 <? inv m)%Z; [exact Hh|]. simpl. lia.
Qed.

Lemma take_dmg_window_witness :
  (0 <= health mario0)%Z /\
  take_dmg 0x200 (take_dmg 0x100 mario0) = take_dmg 0x100 mario0 /\
  health (take_dmg 0x100 mario0) = 0x780%Z.
Proof.
  assert (H0 : (0 <= health mario0)%Z) by (vm_compute; discriminate).
  split; [exact H0|]. split; [|reflexivity].
  exact (proj1 (proj2 (proj2 (take_dmg_window mario0 0x100 0x200 H0)))).
Defined.

(** The calls that change health: [heal(amt)] and [take_dmg(amt)]. *)
Inductive HealthCall := CallHeal (amt : Z) | CallDmg (amt : Z).

Definition run_call (m : MarioState) (k : HealthCall) : MarioState :=
  match k with CallHeal a => heal a m | CallDmg a => take_dmg a m end.

Definition run_calls (ks : list HealthCall) (m : MarioState) : MarioState :=
  fold_left run_call ks m.

Definition call_amount (k : HealthCall) : Z :=
  match k with CallHeal a => a | CallDmg a => a end.

(** C10. Starting from health in [[0, 0x880]], any sequence of [heal] and
    [take_dmg] calls with the amounts the program passes (all call sites
    pass non-negative constants: [0x40*o.coins], [0x100*o.dmg], [0x100],
    [0x200], [0x300]) keeps health in [[0, 0x880]], and the displayed
    wedge count [(health >> 8) & 0xF] in [[0, 8]]. *)
Theorem health_bounded (ks : list HealthCall) (m : MarioState)
  (Hlo : (0 <= health m)%Z) (Hhi : (health m <= 0x880)%Z)
  (Hamt : Forall (fun k => (0 <= call_amount k)%Z) ks) :
  (0 <= health (run_calls ks m) <= 0x880)%Z /\
  (0 <= wedges (run_calls ks m) <= 8)%Z.
Proof.
  assert (Hb : (0 <= health (run_calls ks m) <= 0x880)%Z).
  { unfold run_calls. revert m Hlo Hhi.
    induction Hamt as [|k ks Hk _ IH]; intros m Hlo Hhi; [simpl; lia|].
    simpl. apply IH.
    - destruct k as [a|a]; simpl in Hk |- *.
      + unfold heal. simpl. lia.
      + unfold take_dmg. destruct (0 <? inv m)%Z; simpl; lia.
    - destruct k as [a|a]; simpl in Hk |- *.
      + unfold heal. simpl. lia.
      + unfold take_dmg. destruct (0 <? inv m)%Z; simpl; lia. }
  split; [exact Hb|].
  unfold wedges. set (h := health (run_calls ks m)) in *.
  assert (Hs : (0 <= Z.shiftr h 8 <= 8)%Z).
  { rewrite Z.shiftr_div_pow2 by lia. change (2 ^ 8)%Z with 256%Z.
    split; [apply Z.div_pos; lia|].
    assert (h / 256 < 9)%Z by (apply Z.div_lt_upper_bound; lia). lia. }
  destruct Hs as [Hs1 Hs2].
  assert (Hc : (Z.shiftr h 8 = 0 \/ Z.shiftr h 8 = 1 \/ Z.shiftr h 8 = 2 \/ Z.shiftr h 8 = 3 \/
                Z.shiftr h 8 = 4 \/ Z.shiftr h 8 = 5 \/ Z.shiftr h 8 = 6 \/ Z.shiftr h 8 = 7 \/
                Z.shiftr h 8 = 8)%Z) by lia.
  repeat destruct Hc as [Hc|Hc]; rewrite Hc; vm_compute; split; discriminate.
Qed.

Lemma health_bounded_witness :
  (0 <= wedges (run_calls [CallDmg 0x100; CallHeal 0x40; CallDmg 0x300] mario0) <= 8)%Z /\
  wedges (run_calls [CallDmg 0x100; CallHeal 0x40; CallDmg 0x300] mario0) = 7%Z.
Proof.
  split; [|reflexivity].
  refine (proj2 (health_bounded [CallDmg 0x100; CallHeal 0x40; CallDmg 0x300] mario0
                   _ _ _)).
  - vm_compute. discriminate.
  - vm_compute. discriminate.
  - repeat constructor; vm_compute; discriminate.
Defined.

(** ** Landing transitions of the airborne actions *)

(** C8 (amended). When the air step of an airborne handler reports
    landing (and no input branch left the handler earlier), the next
    action is: walking or idle by the stick for the jump, double jump,
    triple jump, free fall and wall kick; idle for the backflip, side
    flip, long jump, knockback and lava boost; belly slide for the dive;
    ground-pound-land for the ground pound. *)
Theorem airborne_landing (sins coss : Q -> Q) (surfs : list Surface) :
  let lands m := fst (air_step sins coss surfs (update_air sins coss m)) = R_land in
  let quiet c := has (pressed c) IN_Z = false /\ has (pressed c) IN_B = false in
  (forall m c, quiet c -> lands (jump_init m) ->
     action (a_jump sins coss surfs m c) = walk_or_idle c) /\
  (forall m c, quiet c -> lands (dbl_init m) ->
     action (a_dbl sins coss surfs m c) = walk_or_idle c) /\
  (forall m c, has (pressed c) IN_Z = false -> lands (triple_init m) ->
     action (a_triple sins coss surfs m c) = walk_or_idle c) /\
  (forall m c, quiet c -> (has (pressed c) IN_A = false \/ (wktimer m <= 0)%Z) -> lands m ->
     action (a_freefall sins coss surfs m c) = walk_or_idle c) /\
  (forall m c, lands (wallkick_init m) ->
     action (a_wallkick sins coss surfs m c) = walk_or_idle c) /\
  (forall m c, lands (backflip_init sins coss m) ->
     action (a_backflip sins coss surfs m c) = ACT_IDLE) /\
  (forall m c, lands (sideflip_init sins coss m) ->
     action (a_sideflip sins coss surfs m c) = ACT_IDLE) /\
  (forall m c, lands (longjump_init sins coss m) ->
     action (a_longjump sins coss surfs m c) = ACT_IDLE) /\
  (forall m c, lands (knock_init sins coss m) ->
     action (a_knock sins coss surfs m c) = ACT_IDLE) /\
  (forall m c, lands (lava_init m) ->
     action (a_lava sins coss surfs m c) = ACT_IDLE) /\
  (forall m c, lands (dive_init sins coss m) ->
     action (a_dive sins coss surfs m c) = ACT_BELLY_SLIDE) /\
  (forall m c, astate m <> 0%Z -> fst (air_step sins coss surfs m) = R_land ->
     action (a_gp sins coss surfs m c) = ACT_GP_LAND).
Proof.
  intros lands quiet.
  repeat split; intros m c; unfold quiet, lands;
    [ unfold a_jump | unfold a_dbl | unfold a_triple | unfold a_freefall
    | unfold a_wallkick | unfold a_backflip | unfold a_sideflip | unfold a_longjump
    | unfold a_knock | unfold a_lava | unfold a_dive | unfold a_gp ].
  all: repeat match goal with
       | |- (_ /\ _) -> _ => intros [? ?]
       | H : ?b = false |- context [?b] => rewrite H
       end.
  all: try (intros HZ; rewrite HZ).
  (* freefall: the wall-kick branch is not taken *)
  all: try (intros Hwk; assert (Hno : has (pressed c) IN_A && (0 <? wktimer m)%Z = false)
              by (destruct Hwk as [Hwk|Hwk]; [rewrite Hwk; reflexivity|
                  apply andb_false_iff; right; apply Z.ltb_ge; exact Hwk]);
            rewrite Hno).
  all: repeat match goal with
       | H : ?b = false |- context [?b] => rewrite H
       end.
  (* ground pound: the falling phase *)
  all: try (intros Hst; apply Z.eqb_neq in Hst; rewrite Hst).
  all: intros HL; destruct (air_step _ _ _ _) as [r m2]; simpl in HL; subst r.
  all: try (destruct (0 <? wktimer (set_act _ _))%Z); reflexivity.
Qed.

(** A backflip in mid-air just above the flat floor at height 0, and a
    controller holding the stick with no button pressed. *)
Definition backflip_falling : MarioState := with_atimer 1 (with_action ACT_BACKFLIP mario0).
Definition stick_held : Controller := mkCtrl 0 1 1 0 0.

Lemma airborne_landing_witness :
  fst (air_step sins_q coss_q [flat_floor 100 0]
         (update_air sins_q coss_q (backflip_init sins_q coss_q backflip_falling))) = R_land /\
  action (a_backflip sins_q coss_q [flat_floor 100 0] backflip_falling stick_held) = ACT_IDLE.
Proof.
  assert (HL : fst (air_step sins_q coss_q [flat_floor 100 0]
         (update_air sins_q coss_q (backflip_init sins_q coss_q backflip_falling))) = R_land)
    by (vm_compute; reflexivity).
  split; [exact HL|].
  exact (proj1 (proj2 (proj2 (proj2 (proj2 (proj2
           (airborne_landing sins_q coss_q [flat_floor 100 0]))))))
           backflip_falling stick_held HL).
Defined.

(** C8 (counterexample). A backflip that lands while the stick is held
    goes to idle, not to walking. *)
Lemma backflip_lands_idle_with_stick :
  fst (air_step sins_q coss_q [flat_floor 100 0]
         (update_air sins_q coss_q (backflip_init sins_q coss_q backflip_falling))) = R_land /\
  Qltb 0 (stick_mag stick_held) = true /\
  action (a_backflip sins_q coss_q [flat_floor 100 0] backflip_falling stick_held) = ACT_IDLE /\
  ACT_IDLE <> ACT_WALKING.
Proof. vm_compute. repeat split. discriminate. Qed.

(** ** The painter's order *)

Section PainterSort.

Variable A : Type.

(** [a] may be drawn before [b]: it is at least as deep. *)
Definition depth_ge (a b : Q * A) : Prop := fst b <= fst a.

Lemma depth_ge_trans : Transitive depth_ge.
Proof. intros a b c Hab Hbc. unfold depth_ge in *. apply Qle_trans with (fst b); assumption. Qed.

Lemma insert_desc_perm (x : Q * A) (l : list (Q * A)) :
  Permutation (insert_desc A x l) (x :: l).
Proof.
  induction l as [|y r IH]; simpl; [reflexivity|].
  destruct (Qleb (fst x) (fst y)); [|reflexivity].
  rewrite IH. apply perm_swap.
Qed.

Lemma insert_desc_hdrel (x y : Q * A) (l : list (Q * A)) :
  HdRel depth_ge y l -> depth_ge y x -> HdRel depth_ge y (insert_desc A x l).
Proof.
  destruct l as [|z r]; simpl; intros Hh Hyx; [constructor; exact Hyx|].
  destruct (Qleb (fst x) (fst z)); constructor; [exact (HdRel_inv Hh) | exact Hyx].
Qed.

Lemma insert_desc_sorted (x : Q * A) (l : list (Q * A)) :
  Sorted depth_ge l -> Sorted depth_ge (insert_desc A x l).
Proof.
  induction l as [|y r IH]; simpl; intros Hs; [repeat constructor|].
  apply Sorted_inv in Hs. destruct Hs as [Hr Hh].
  destruct (Qleb (fst x) (fst y)) eqn:E.
  - constructor; [exact (IH Hr)|]. apply insert_desc_hdrel; [exact Hh|].
    apply Qleb_true in E. exact E.
  - constructor; [constructor; assumption|]. constructor.
    apply Qleb_false in E. apply Qlt_le_weak. exact E.
Qed.

Definition same_depth (k : Q) (p : Q * A) : bool := Qeq_bool (fst p) k.

Lemma filter_none (f : Q * A -> bool) (l : list (Q * A)) :
  (forall z, In z l -> f z = false) -> filter f l = [].
Proof.
  induction l as [|z r IH]; simpl; intros H; [reflexivity|].
  rewrite (H z (or_introl eq_refl)). apply IH. intros w Hw. apply H. right. exact Hw.
Qed.

Lemma insert_desc_filter (x : Q * A) (l : list (Q * A)) (k : Q) :
  Sorted depth_ge l ->
  filter (same_depth k) (insert_desc A x l) =
  filter (same_depth k) l ++ (if same_depth k x then [x] else []).
Proof.
  induction l as [|y r IH]; simpl; intros Hs; [destruct (same_depth k x); reflexivity|].
  pose proof (Sorted_StronglySorted depth_ge_trans Hs) as Hss.
  apply Sorted_inv in Hs. destruct Hs as [Hr _].
  destruct (Qleb (fst x) (fst y)) eqn:E.
  - simpl. rewrite (IH Hr). destruct (same_depth k y); reflexivity.
  - apply Qleb_false in E. simpl.
    destruct (same_depth k x) eqn:Ex.
    + assert (Hnone : filter (same_depth k) (y :: r) = []).
      { apply StronglySorted_inv in Hss. destruct Hss as [_ Hall].
        unfold same_depth in *. apply Qeq_bool_iff in Ex.
        simpl. destruct (Qeq_bool (fst y) k) eqn:Ey.
        - apply Qeq_bool_iff in Ey. exfalso. rewrite Ey, <- Ex in E.
          apply (Qlt_irrefl _ E).
        - apply filter_none. intros z Hz.
          rewrite Forall_forall in Hall. specialize (Hall z Hz). unfold depth_ge in Hall.
          destruct (Qeq_bool (fst z) k) eqn:Ez; [|reflexivity].
          apply Qeq_bool_iff in Ez. exfalso. rewrite Ez, <- Ex in Hall.
          apply (Qlt_not_le _ _ E Hall). }
      simpl in Hnone. rewrite Hnone. reflexivity.
    + rewrite app_nil_r. reflexivity.
Qed.

Lemma sort_fold_spec (l acc : list (Q * A)) :
  Sorted depth_ge acc ->
  let s := fold_left (fun acc x => insert_desc A x acc) l acc in
  Permutation s (l ++ acc) /\ Sorted depth_ge s /\
  (forall k, filter (same_depth k) s = filter (same_depth k) acc ++ filter (same_depth k) l).
Proof.
  revert acc. induction l as [|x l IH]; intros acc Hs; simpl.
  - split; [reflexivity|]. split; [exact Hs|]. intros k. rewrite app_nil_r. reflexivity.
  - destruct (IH (insert_desc A x acc) (insert_desc_sorted x acc Hs)) as (Hp & Hs' & Hf).
    split; [|split; [exact Hs'|]].
    + rewrite Hp. rewrite insert_desc_perm. apply Permutation_sym, Permutation_middle.
    + intros k. rewrite Hf, (insert_desc_filter x acc k Hs), <- app_assoc.
      destruct (same_depth k x); reflexivity.
Qed.

Lemma strongly_sorted_nth (s : list (Q * A)) :
  StronglySorted depth_ge s ->
  forall i j a b, (i < j)%nat -> nth_error s i = Some a -> nth_error s j = Some b ->
  depth_ge a b.
Proof.
  induction 1 as [|x r Hr IH Hall]; intros i j a b Hij Hi Hj; [destruct i; discriminate|].
  destruct i as [|i]; destruct j as [|j]; try lia; simpl in Hi, Hj.
  - inversion Hi; subst. rewrite Forall_forall in Hall. apply Hall.
    apply nth_error_In with j. exact Hj.
  - apply (IH i j); [lia | exact Hi | exact Hj].
Qed.

End PainterSort.

(** C7. The faces are drawn in an order that is a permutation of the
    projected faces, such that of two faces with mean depths [d1 < d2] the
    one at [d2] is drawn first, and faces of equal mean depth are drawn in
    their original order (the sort is stable). *)
Theorem painter_order (A : Type) (polys : list (Q * A)) :
  let s := draw_sequence A polys in
  Permutation s polys /\
  (forall i j a b, nth_error s i = Some a -> nth_error s j = Some b ->
     fst a < fst b -> (j < i)%nat) /\
  (forall k, filter (fun p => Qeq_bool (fst p) k) s = filter (fun p => Qeq_bool (fst p) k) polys).
Proof.
  destruct (sort_fold_spec A polys [] (Sorted_nil _)) as (Hp & Hs & Hf).
  unfold draw_sequence, sort_desc. split; [|split].
  - rewrite app_nil_r in Hp. exact Hp.
  - intros i j a b Hi Hj Hlt.
    destruct (Nat.lt_trichotomy j i) as [H|[H|H]]; [exact H| |].
    + subst j. rewrite Hi in Hj. inversion Hj; subst. exfalso. apply (Qlt_irrefl _ Hlt).
    + exfalso. pose proof (strongly_sorted_nth A _ (Sorted_StronglySorted (depth_ge_trans A) Hs)
                             i j a b H Hi Hj) as Hge.
      unfold depth_ge in Hge. apply (Qlt_not_le _ _ Hlt Hge).
  - intros k. exact (Hf k).
Qed.

(** ** Collecting *)

Section Collect.

Variable sqrt : Q -> Q.
Variable atan2_deg : Q -> Q -> Q.
Variable cur_lvl ctrl_pressed : Z.

Let one := interact_one sqrt atan2_deg cur_lvl ctrl_pressed.
Let run := interact_objs sqrt atan2_deg cur_lvl ctrl_pressed.

(** An object the loop skips ([not o.active or o.collected]). *)
Definition inert (o : Obj) : bool := negb (active o) || collected o.

Lemma interact_one_inert (m : MarioState) (o : Obj) :
  inert o = true -> one m o = (m, o, None).
Proof. intros H. subst one. unfold interact_one. unfold inert in H. rewrite H. reflexivity. Qed.

Lemma interact_objs_length (m : MarioState) (l : list Obj) :
  length (snd (fst (run m l))) = length l.
Proof.
  subst run. revert m. induction l as [|o r IH]; intros m; [reflexivity|]. simpl.
  destruct (interact_one _ _ _ _ m o) as [[m' o'] [w|]]; [reflexivity|].
  specialize (IH m'). destruct (interact_objs _ _ _ _ m' r) as [[m'' r'] res].
  simpl in *. rewrite IH. reflexivity.
Qed.

Lemma interact_objs_app (m : MarioState) (pre rest : list Obj) :
  run m (pre ++ rest) =
  match run m pre with
  | (m1, pre', None) => let '(m2, rest', r) := run m1 rest in (m2, pre' ++ rest', r)
  | (m1, pre', Some w) => (m1, pre' ++ rest, Some w)
  end.
Proof.
  subst run. revert m. induction pre as [|o pre IH]; intros m; simpl.
  - destruct (interact_objs _ _ _ _ m rest) as [[m2 r'] r]. reflexivity.
  - destruct (interact_one _ _ _ _ m o) as [[m' o'] [w|]]; [reflexivity|].
    rewrite IH. destruct (interact_objs _ _ _ _ m' pre) as [[m1 pre'] [w|]]; [reflexivity|].
    destruct (interact_objs _ _ _ _ m1 rest) as [[m2 r'] r]. reflexivity.
Qed.

(** An inert object is transparent to every run: the run ends in the same
    character state and result as the run without it, and leaves it in
    place, unchanged. *)
Lemma interact_objs_skip_inert (m : MarioState) (pre post : list Obj) (o : Obj) :
  inert o = true ->
  run m (pre ++ o :: post) =
  let '(m', l, r) := run m (pre ++ post) in
  (m', firstn (length pre) l ++ o :: skipn (length pre) l, r).
Proof.
  intros Hin. rewrite !interact_objs_app.
  pose proof (interact_objs_length m pre) as Hlen.
  destruct (run m pre) as [[m1 pre'] [w|]]; simpl in Hlen.
  - rewrite <- Hlen, firstn_app, skipn_app, Nat.sub_diag, firstn_all, skipn_all. simpl.
    rewrite app_nil_r. reflexivity.
  - subst run. cbn [interact_objs]. fold one.
    rewrite (interact_one_inert m1 o Hin).
    fold (interact_objs sqrt atan2_deg cur_lvl ctrl_pressed m1 post).
    destruct (interact_objs _ _ _ _ m1 post) as [[m2 post'] r].
    rewrite <- Hlen, firstn_app, skipn_app, Nat.sub_diag, firstn_all, skipn_all. simpl.
    rewrite !app_nil_r. reflexivity.
Qed.

End Collect.

Lemma stars_of_dict_set_new (l : Z) (v : list Z) (d : list (Z * list Z)) :
  dict_mem l d = false -> stars_of l (dict_set l v d) = v.
Proof.
  induction d as [|[k ss] rest IH]; simpl; intros H.
  - rewrite Z.eqb_refl. reflexivity.
  - apply orb_false_iff in H. destruct H as [Hk Hr]. simpl in Hk. rewrite Hk. simpl.
    rewrite Hk. apply IH. exact Hr.
Qed.

Lemma get_star_new (l s : Z) (m : MarioState) :
  has_star l s m = false -> stars (get_star l s m) = (stars m + 1)%Z.
Proof.
  unfold has_star, get_star. intros H.
  destruct (dict_mem l (lvl_stars m)) eqn:Em.
  - rewrite H. reflexivity.
  - cbn [lvl_stars with_lvl_stars]. rewrite (stars_of_dict_set_new l [] _ Em). reflexivity.
Qed.

(** The distance [d] of [interact_objs]. *)
Definition obj_dist (sqrt : Q -> Q) (m : MarioState) (o : Obj) : Q :=
  let dx := vx (pos m) - vx (opos o) in
  let dy := vy (pos m) - vy (opos o) in
  let dz := vz (pos m) - vz (opos o) in
  sqrt (dx * dx + dy * dy + dz * dz).

(** The reward counter of a collectible and its fixed value. *)
Definition reward (o : Obj) (m : MarioState) : Z :=
  match otype o with
  | COIN | COIN_RED | COIN_BLUE => coins m
  | STAR => stars m
  | ONE_UP => lives m
  | _ => 0%Z
  end.
Definition reward_value (o : Obj) : Z :=
  match otype o with
  | COIN | COIN_RED | COIN_BLUE => ocoins o
  | STAR | ONE_UP => 1%Z
  | _ => 0%Z
  end.

(** A coin or one-up, or a star whose id the character does not have yet
    for the current level. *)
Definition collectible_now (lvl : Z) (m : MarioState) (o : Obj) : bool :=
  match otype o with
  | COIN | COIN_RED | COIN_BLUE | ONE_UP => true
  | STAR => negb (has_star lvl (star_id o) m)
  | _ => false
  end.

(** A star already recorded for the level passes through [interact_one]
    untouched. *)
Lemma owned_star_skipped (sqrt : Q -> Q) (atan2_deg : Q -> Q -> Q) (lvl pr : Z)
  (m : MarioState) (s : Obj) :
  otype s = STAR -> has_star lvl (star_id s) m = true ->
  interact_one sqrt atan2_deg lvl pr m s = (m, s, None).
Proof.
  intros Hs Hown. unfold interact_one.
  destruct (negb (active s) || collected s); [reflexivity|].
  destruct (Qltb _ _); [reflexivity|].
  rewrite Hs, Hown. reflexivity.
Qed.

(** C6 (amended). When a run of [interact_objs] reaches an active,
    uncollected coin, one-up, or star not yet obtained for the current
    level (no pipe warp returned earlier in the list), and the actor is
    within [irange + 30], that run marks it collected and inactive and
    adds the actor's fixed value to its reward counter (coins, stars or
    lives); from then on the actor is inert, so every later run leaves it
    in place unchanged and ends in the same character state and result as
    a run without it. A star whose id is already recorded for the current
    level is neither collected nor rewarded: the run leaves it unchanged
    (so still active) and goes on with the character state it reached
    before it, whatever the star's distance and flags. *)
Theorem collect_once (sqrt : Q -> Q) (atan2_deg : Q -> Q -> Q) (lvl pr : Z)
  (m m1 : MarioState) (pre pre' post : list Obj) (o : Obj)
  (Hpre : interact_objs sqrt atan2_deg lvl pr m pre = (m1, pre', None))
  (Hact : active o = true) (Hcol : collected o = false)
  (Hrange : Qltb (irange o + 30) (obj_dist sqrt m1 o) = false)
  (Hkind : collectible_now lvl m1 o = true) :
  exists m2 o1,
    interact_objs sqrt atan2_deg lvl pr m (pre ++ o :: post) =
      (let '(m3, post', r) := interact_objs sqrt atan2_deg lvl pr m2 post in
       (m3, pre' ++ o1 :: post', r)) /\
    collected o1 = true /\ active o1 = false /\
    reward o m2 = (reward o m1 + reward_value o)%Z /\
    (forall m' pre2 post2,
       interact_objs sqrt atan2_deg lvl pr m' (pre2 ++ o1 :: post2) =
       let '(m'', l, r) := interact_objs sqrt atan2_deg lvl pr m' (pre2 ++ post2) in
       (m'', firstn (length pre2) l ++ o1 :: skipn (length pre2) l, r)) /\
    (forall s, otype s = STAR -> has_star lvl (star_id s) m1 = true ->
       interact_objs sqrt atan2_deg lvl pr m (pre ++ s :: post) =
         (let '(m3, post', r) := interact_objs sqrt atan2_deg lvl pr m1 post in
          (m3, pre' ++ s :: post', r))).
Proof.
  assert (Hstep : exists m2 o1,
            interact_one sqrt atan2_deg lvl pr m1 o = (m2, o1, None) /\
            collected o1 = true /\ active o1 = false /\
            reward o m2 = (reward o m1 + reward_value o)%Z).
  { unfold interact_one. rewrite Hact, Hcol. simpl.
    unfold obj_dist in Hrange. rewrite Hrange.
    unfold collectible_now in Hkind. unfold reward, reward_value.
    destruct (otype o); try discriminate;
      try (eexists; eexists; split; [reflexivity|]; repeat split; reflexivity).
    apply negb_true_iff in Hkind. rewrite Hkind. simpl.
    eexists; eexists; split; [reflexivity|]. repeat split.
    apply get_star_new. exact Hkind. }
  destruct Hstep as (m2 & o1 & Hone & Hc1 & Ha1 & Hrw).
  exists m2, o1. split; [|split; [exact Hc1|split; [exact Ha1|split; [exact Hrw|]]]].
  - rewrite interact_objs_app, Hpre. cbn [interact_objs]. rewrite Hone.
    destruct (interact_objs _ _ _ _ m2 post) as [[m3 post'] r]. reflexivity.
  - split.
    + intros m' pre2 post2. apply interact_objs_skip_inert.
      unfold inert. rewrite Ha1, Hc1. reflexivity.
    + intros s Hs Hown. rewrite interact_objs_app, Hpre. cbn [interact_objs].
      rewrite (owned_star_skipped sqrt atan2_deg lvl pr m1 s Hs Hown).
      destruct (interact_objs _ _ _ _ m1 post) as [[m3 post'] r]. reflexivity.
Qed.

(** A yellow coin ([sp_coin]) and a star ([sp_star], id 0) at the origin. *)
Definition coin0 : Obj := mkObj COIN (mkVec 0 0 0) 1 true 0 false 60 1 1 0 (-1) 0.
Definition star0 : Obj := mkObj STAR (mkVec 0 0 0) 1 true 0 false 80 1 0 0 (-1) 0.

(** [math.degrees(math.atan2(...))] is not evaluated on coins and stars;
    any function stands for it in these scenarios. *)
Definition atan2_unused (a b : Q) : Q := 0.

Lemma collect_once_witness :
  exists m2 o1,
    interact_objs sqrt_q atan2_unused 0 0 mario0 ([] ++ coin0 :: []) =
      (let '(m3, post', r) := interact_objs sqrt_q atan2_unused 0 0 m2 [] in
       (m3, [] ++ o1 :: post', r)) /\
    collected o1 = true /\ active o1 = false /\
    reward coin0 m2 = (reward coin0 mario0 + reward_value coin0)%Z /\
    (forall m' pre2 post2,
       interact_objs sqrt_q atan2_unused 0 0 m' (pre2 ++ o1 :: post2) =
       let '(m'', l, r) := interact_objs sqrt_q atan2_unused 0 0 m' (pre2 ++ post2) in
       (m'', firstn (length pre2) l ++ o1 :: skipn (length pre2) l, r)) /\
    (forall s, otype s = STAR -> has_star 0 (star_id s) mario0 = true ->
       interact_objs sqrt_q atan2_unused 0 0 mario0 ([] ++ s :: []) =
         (let '(m3, post', r) := interact_objs sqrt_q atan2_unused 0 0 mario0 [] in
          (m3, [] ++ s :: post', r))).
Proof.
  apply (collect_once sqrt_q atan2_unused 0 0 mario0 mario0 [] [] [] coin0);
    vm_compute; reflexivity.
Defined.

(** C6 (counterexample). A star whose id is already recorded for the
    current level, active, uncollected and at the character's position,
    is left active and uncollected by the run, and the star counter does
    not move. *)
Lemma owned_star_not_collected :
  let m := with_lvl_stars [(0%Z, [0%Z])] mario0 in
  Qltb (irange star0 + 30) (obj_dist sqrt_q m star0) = false /\
  active star0 = true /\ collected star0 = false /\
  interact_objs sqrt_q atan2_unused 0 0 m [star0] = (m, [star0], None).
Proof. vm_compute. repeat split. Qed.

(** ** Further properties of the code *)

(** *** The numeric helpers *)

Lemma Qmin'_cases (a b : Q) : (a <= b /\ Qmin' a b = a) \/ (b < a /\ Qmin' a b = b).
Proof.
  unfold Qmin'. destruct (Qleb a b) eqn:E.
  - left. split; [apply Qleb_true; assumption|reflexivity].
  - right. split; [apply Qleb_false; assumption|reflexivity].
Qed.

Lemma Qmax'_cases (a b : Q) : (b <= a /\ Qmax' a b = a) \/ (a < b /\ Qmax' a b = b).
Proof.
  unfold Qmax'. destruct (Qleb b a) eqn:E.
  - left. split; [apply Qleb_true; assumption|reflexivity].
  - right. split; [apply Qleb_false; assumption|reflexivity].
Qed.

(** The three branches of [approach_f32]. *)
Lemma approach_f32_cases (cur tgt inc : Q) :
  (cur < tgt /\ approach_f32 cur tgt inc = Qmin' (cur + inc) tgt) \/
  (tgt < cur /\ approach_f32 cur tgt inc = Qmax' (cur - inc) tgt) \/
  (cur == tgt /\ approach_f32 cur tgt inc = cur).
Proof.
  unfold approach_f32. destruct (Qltb cur tgt) eqn:E1.
  - left. split; [apply Qltb_true; assumption|reflexivity].
  - apply Qltb_false in E1. destruct (Qltb tgt cur) eqn:E2.
    + right; left. split; [apply Qltb_true; assumption|reflexivity].
    + apply Qltb_false in E2. right; right. split; [apply Qle_antisym; assumption|reflexivity].
Qed.

(** X1. [approach_f32(cur, tgt, inc)] with a non-negative step never
    overshoots: its result lies between [cur] and [tgt] and at most [inc]
    away from [cur]. *)
Theorem approach_f32_no_overshoot (cur tgt inc : Q) (Hinc : 0 <= inc) :
  let r := approach_f32 cur tgt inc in
  ((cur <= tgt -> cur <= r /\ r <= tgt) /\ (tgt <= cur -> tgt <= r /\ r <= cur)) /\
  Qabs (r - cur) <= inc.
Proof.
  cbv zeta.
  destruct (approach_f32_cases cur tgt inc) as [[H R]|[[H R]|[H R]]]; rewrite R.
  - destruct (Qmin'_cases (cur + inc) tgt) as [[H1 R1]|[H1 R1]]; rewrite R1.
    + split; [split; intros; split; lra|].
      rewrite Qabs_pos; lra.
    + split; [split; intros; split; lra|].
      rewrite Qabs_pos; lra.
  - destruct (Qmax'_cases (cur - inc) tgt) as [[H1 R1]|[H1 R1]]; rewrite R1.
    + split; [split; intros; split; lra|].
      rewrite Qabs_neg; lra.
    + split; [split; intros; split; lra|].
      rewrite Qabs_neg; lra.
  - split; [split; intros; split; lra|].
    rewrite Qabs_pos; lra.
Qed.

Lemma approach_f32_no_overshoot_witness :
  0 <= 2 /\
  let r := approach_f32 5 0 2 in
  ((5 <= 0 -> 5 <= r /\ r <= 0) /\ (0 <= 5 -> 0 <= r /\ r <= 5)) /\ Qabs (r - 5) <= 2.
Proof. split; [vm_compute; discriminate|]. apply (approach_f32_no_overshoot 5 0 2). vm_compute; discriminate. Defined.

Lemma inject_Z_S (n : nat) : inject_Z (Z.of_nat (S n)) == inject_Z (Z.of_nat n) + 1.
Proof. rewrite Nat2Z.inj_succ, <- Z.add_1_r, inject_Z_plus. reflexivity. Qed.

Lemma inject_Z_nat_nonneg (n : nat) : 0 <= inject_Z (Z.of_nat n).
Proof. change 0 with (inject_Z 0). rewrite <- Zle_Qle. lia. Qed.

(** X2. Repeated [approach_f32] with a positive step reaches its target
    exactly: after [n] ticks with [|tgt - cur| <= n * inc] the value is [tgt]. *)
Theorem approach_f32_reaches (cur tgt inc : Q) (n : nat) (Hinc : 0 < inc)
  (Hn : Qabs (tgt - cur) <= inject_Z (Z.of_nat n) * inc) :
  iterate n (fun c => approach_f32 c tgt inc) cur == tgt.
Proof.
  revert cur Hn. induction n as [|n IH]; intros cur Hn; simpl iterate.
  - change (inject_Z (Z.of_nat 0)) with 0 in Hn. apply Qabs_Qle_condition in Hn. lra.
  - apply IH. rewrite inject_Z_S in Hn. pose proof (inject_Z_nat_nonneg n) as Hz.
    assert (Hp : 0 <= inject_Z (Z.of_nat n) * inc).
    { apply Qmult_le_0_compat; lra. }
    apply Qabs_Qle_condition in Hn. apply Qabs_Qle_condition.
    destruct (approach_f32_cases cur tgt inc) as [[H R]|[[H R]|[H R]]]; rewrite R.
    + destruct (Qmin'_cases (cur + inc) tgt) as [[H1 R1]|[H1 R1]]; rewrite R1; lra.
    + destruct (Qmax'_cases (cur - inc) tgt) as [[H1 R1]|[H1 R1]]; rewrite R1; lra.
    + lra.
Qed.

Lemma approach_f32_reaches_witness :
  0 < 2 /\ Qabs (0 - 5) <= inject_Z (Z.of_nat 3) * 2 /\
  iterate 3 (fun c => approach_f32 c 0 2) 5 == 0.
Proof.
  split; [vm_compute; reflexivity|]. split; [vm_compute; discriminate|].
  apply (approach_f32_reaches 5 0 2 3); vm_compute; [reflexivity|discriminate].
Defined.

(** Python's [a % n] with a positive float modulus lies in [[0, n)]. *)
Lemma pymod_range (a n : Q) (Hn : 0 < n) : 0 <= pymod a n /\ pymod a n < n.
Proof.
  unfold pymod. set (f := inject_Z (Qfloor (a / n))).
  assert (H1 : f <= a / n) by apply Qfloor_le.
  assert (H2 : a / n < f + 1).
  { pose proof (Qlt_floor (a / n)) as H. rewrite inject_Z_plus in H. exact H. }
  assert (Hnz : ~ n == 0) by (intro E; rewrite E in Hn; discriminate).
  assert (E : n * (a / n) == a) by (apply Qmult_div_r; exact Hnz).
  apply (Qmult_le_l _ _ n Hn) in H1. apply (Qmult_lt_l _ _ n Hn) in H2.
  rewrite E in H1, H2. split; lra.
Qed.

(** X3. [approach_angle] turns along the shorter arc: the difference [d]
    it computes is [tgt - cur] reduced by a whole number of turns into
    [[-180, 180)]; the result is [tgt] when [|d| <= inc], and otherwise
    [cur] moved by a non-negative [inc] in the direction of the sign of [d]. *)
Theorem approach_angle_shortest_arc (cur tgt inc : Q) (Hinc : 0 <= inc) :
  let d := pymod (tgt - cur + 180) 360 - 180 in
  -180 <= d /\ d < 180 /\ (exists k : Z, tgt - cur == d + 360 * inject_Z k) /\
  (Qabs d <= inc -> approach_angle cur tgt inc = tgt) /\
  (inc < d -> approach_angle cur tgt inc = cur + inc) /\
  (d < - inc -> approach_angle cur tgt inc = cur - inc).
Proof.
  cbv zeta. destruct (pymod_range (tgt - cur + 180) 360) as [R1 R2]; [reflexivity|].
  split; [lra|]. split; [lra|]. split.
  { exists (Qfloor ((tgt - cur + 180) / 360)). unfold pymod. ring. }
  unfold approach_angle.
  set (d := pymod (tgt - cur + 180) 360 - 180).
  split; [|split].
  - intros H. apply Qabs_Qle_condition in H.
    destruct (Qltb inc d) eqn:E1; [apply Qltb_true in E1; lra|].
    destruct (Qltb d (- inc)) eqn:E2; [apply Qltb_true in E2; lra|reflexivity].
  - intros H. apply Qltb_true in H. rewrite H. reflexivity.
  - intros H. destruct (Qltb inc d) eqn:E1; [apply Qltb_true in E1; lra|].
    apply Qltb_true in H. rewrite H. reflexivity.
Qed.

Lemma approach_angle_shortest_arc_witness :
  0 <= 11.25 /\ approach_angle 350 0 11.25 = 0.
Proof.
  assert (H : 0 <= 11.25) by (vm_compute; discriminate). split; [exact H|].
  destruct (approach_angle_shortest_arc 350 0 11.25 H) as (_ & _ & _ & Hs & _).
  apply Hs. vm_compute. discriminate.
Defined.

(** *** The star set of [MarioState] *)

Lemma stars_of_dict_set (l' l : Z) (v : list Z) (d : list (Z * list Z)) :
  stars_of l' (dict_set l v d) = if Z.eqb l' l then v else stars_of l' d.
Proof.
  induction d as [|[k ss] rest IH]; simpl.
  - rewrite (Z.eqb_sym l l'). destruct (Z.eqb l' l); reflexivity.
  - destruct (Z.eqb_spec k l) as [->|Hk]; simpl.
    + rewrite (Z.eqb_sym l l'). destruct (Z.eqb l' l); reflexivity.
    + rewrite IH. destruct (Z.eqb_spec l' l) as [->|Hl]; [|reflexivity].
      apply Z.eqb_neq in Hk. rewrite Hk. reflexivity.
Qed.

Lemma stars_of_absent (l : Z) (d : list (Z * list Z)) :
  dict_mem l d = false -> stars_of l d = [].
Proof.
  induction d as [|[k ss] rest IH]; simpl; intros H; [reflexivity|].
  apply orb_false_iff in H. destruct H as [Hk Hr]. simpl in Hk. rewrite Hk. apply IH, Hr.
Qed.

Lemma stars_of_present (l s : Z) (d : list (Z * list Z)) :
  existsb (Z.eqb s) (stars_of l d) = true -> dict_mem l d = true.
Proof.
  intros H. destruct (dict_mem l d) eqn:E; [reflexivity|].
  rewrite (stars_of_absent l d E) in H. discriminate.
Qed.

(** [get_star] on a star already held returns the state unchanged. *)
Lemma get_star_owned (l s : Z) (m : MarioState) :
  has_star l s m = true -> get_star l s m = m.
Proof.
  unfold has_star, get_star. intros H.
  rewrite (stars_of_present l s _ H), H. reflexivity.
Qed.

Lemma get_star_spec (l s : Z) (m : MarioState) :
  (forall l' s', has_star l' s' (get_star l s m) =
                 has_star l' s' m || (Z.eqb l' l && Z.eqb s' s)) /\
  stars (get_star l s m) = (stars m + if has_star l s m then 0 else 1)%Z.
Proof.
  destruct (has_star l s m) eqn:Hh.
  - rewrite (get_star_owned l s m Hh). split; [|lia].
    intros l' s'. destruct (Z.eqb_spec l' l) as [->|]; destruct (Z.eqb_spec s' s) as [->|];
      simpl; rewrite ?Hh, ?orb_true_r, ?orb_false_r; reflexivity.
  - split; [|rewrite (get_star_new l s m Hh); lia].
    intros l' s'. unfold has_star in *. unfold get_star.
    destruct (dict_mem l (lvl_stars m)) eqn:Em.
    + rewrite Hh. cbn [lvl_stars with_lvl_stars with_stars].
      rewrite stars_of_dict_set. destruct (Z.eqb_spec l' l) as [->|]; simpl.
      * rewrite existsb_app. simpl. rewrite ?orb_false_r. reflexivity.
      * rewrite ?orb_false_r. reflexivity.
    + cbn [lvl_stars with_lvl_stars with_stars].
      rewrite (stars_of_dict_set l l [] _), Z.eqb_refl. simpl.
      rewrite stars_of_dict_set. destruct (Z.eqb_spec l' l) as [->|Hne].
      * rewrite (stars_of_absent l _ Em). simpl. rewrite ?orb_false_r, ?(Z.eqb_sym s s'). reflexivity.
      * rewrite stars_of_dict_set. apply Z.eqb_neq in Hne. rewrite Hne. simpl.
        rewrite ?orb_false_r. reflexivity.
Qed.

(** X4. [get_star(l, s)] adds [(l, s)] to the obtained stars and nothing
    else: afterwards [has_star(l', s')] holds exactly when it held before
    or [(l', s') = (l, s)], and the star counter grows by one exactly when
    the star was new. *)
Theorem get_star_adds (l s : Z) (m : MarioState) :
  (forall l' s', has_star l' s' (get_star l s m) =
                 has_star l' s' m || (Z.eqb l' l && Z.eqb s' s)) /\
  stars (get_star l s m) = (stars m + if has_star l s m then 0 else 1)%Z.
Proof. exact (get_star_spec l s m). Qed.

(** X5. [get_star] is idempotent: a second call for the same star changes
    nothing. *)
Theorem get_star_idempotent (l s : Z) (m : MarioState) :
  get_star l s (get_star l s m) = get_star l s m.
Proof.
  apply get_star_owned. destruct (get_star_spec l s m) as [H _].
  rewrite H, !Z.eqb_refl, orb_true_r. reflexivity.
Qed.

(** *** [find_wall] *)

Lemma Qltb_compat (a a' b b' : Q) : a == a' -> b == b' -> Qltb a b = Qltb a' b'.
Proof.
  intros Ha Hb. destruct (Qltb a' b') eqn:E.
  - apply Qltb_true in E. apply Qltb_true. rewrite Ha, Hb. exact E.
  - apply Qltb_false in E. apply Qltb_false. rewrite Ha, Hb. exact E.
Qed.

Lemma Qleb_compat (a a' b b' : Q) : a == a' -> b == b' -> Qleb a b = Qleb a' b'.
Proof.
  intros Ha Hb. destruct (Qleb a' b') eqn:E.
  - apply Qleb_true in E. apply Qleb_true. rewrite Ha, Hb. exact E.
  - apply Qleb_false in E. apply Qleb_false. rewrite Ha, Hb. exact E.
Qed.

(** X6. A surface returned by [find_wall] is one of the surfaces, is not
    flatter than [abs(ny) <= 0.7], spans the probe height within its
    vertical extent widened by 10, and its plane separates the probe's
    start (strictly in front) from the point [2 * (dx, dz)] ahead (behind
    or on the plane). *)
Theorem find_wall_hit (ss : list Surface) (x y z dx dz : Q) (w : Surface) :
  find_wall ss x y z dx dz = Some w ->
  In w ss /\ Qabs (vy (normal w)) <= 0.7 /\
  vmin vy w - 10 <= y /\ y <= vmax vy w + 10 /\
  0 < (x - vx (v0 w)) * vx (normal w) + (z - vz (v0 w)) * vz (normal w) /\
  (x + dx * 2 - vx (v0 w)) * vx (normal w) + (z + dz * 2 - vz (v0 w)) * vz (normal w) <= 0.
Proof.
  induction ss as [|s rest IH]; simpl; [discriminate|].
  destruct (Qltb 0.7 (Qabs (vy (normal s)))) eqn:E1.
  { intros H. destruct (IH H) as [Hi Hr]. split; [right; exact Hi|exact Hr]. }
  destruct (Qltb y (vmin vy s - 10) || Qltb (vmax vy s + 10) y) eqn:E2.
  { intros H. destruct (IH H) as [Hi Hr]. split; [right; exact Hi|exact Hr]. }
  destruct (Qltb 0 _ && Qleb _ 0) eqn:E3.
  - intros H. injection H as <-. apply Qltb_false in E1.
    apply orb_false_iff in E2. destruct E2 as [E2a E2b].
    apply Qltb_false in E2a. apply Qltb_false in E2b.
    apply andb_true_iff in E3. destruct E3 as [E3a E3b].
    apply Qltb_true in E3a. apply Qleb_true in E3b.
    repeat split; auto.
  - intros H. destruct (IH H) as [Hi Hr]. split; [right; exact Hi|exact Hr].
Qed.

Lemma find_wall_hit_witness :
  let w := mkSurface (mkVec 10 0 (-50)) [mkVec 10 100 50] (mkVec (-1) 0 0) 0 in
  find_wall [w] 0 50 0 10 0 = Some w /\
  In w [w] /\ Qabs (vy (normal w)) <= 0.7 /\
  vmin vy w - 10 <= 50 /\ 50 <= vmax vy w + 10 /\
  0 < (0 - vx (v0 w)) * vx (normal w) + (0 - vz (v0 w)) * vz (normal w) /\
  (0 + 10 * 2 - vx (v0 w)) * vx (normal w) + (0 + 0 * 2 - vz (v0 w)) * vz (normal w) <= 0.
Proof.
  cbv zeta. split; [reflexivity|]. apply find_wall_hit. reflexivity.
Defined.

(** X7. [find_wall] tests a surface against its whole plane and never
    against its horizontal extent: moving the probe any distance [t]
    along the surface's plane (direction [(-nz, nx)]) does not change
    whether that surface is hit, however far beyond its vertices. *)
Theorem find_wall_ignores_horizontal_extent (s : Surface) (x y z dx dz t : Q) :
  find_wall [s] (x - t * vz (normal s)) y (z + t * vx (normal s)) dx dz =
  find_wall [s] x y z dx dz.
Proof.
  simpl. destruct (Qltb 0.7 _); [reflexivity|]. destruct (_ || _); [reflexivity|].
  rewrite (Qltb_compat 0 0 _ ((x - vx (v0 s)) * vx (normal s) + (z - vz (v0 s)) * vz (normal s)));
    [|reflexivity|ring].
  rewrite (Qleb_compat _ ((x + dx * 2 - vx (v0 s)) * vx (normal s) + (z + dz * 2 - vz (v0 s)) * vz (normal s)) 0 0);
    [reflexivity|ring|reflexivity].
Qed.

(** *** [find_floor] of [sm644k1.x.py] *)

(** The surfaces that the [abs(ny) < 0.1] test of [sm644k1.x.py] keeps. *)
Definition k1_keeps (s : Surface) : bool := negb (Qltb (Qabs (vy (normal s))) 0.1).

Lemma floor_check_k1_kept (x y z : Q) (acc : Q * option Surface) (s : Surface) :
  k1_keeps s = true -> floor_check_k1 x y z acc s = floor_check x y z acc s.
Proof.
  unfold k1_keeps. intros H. apply negb_true_iff, Qltb_false in H.
  destruct acc as [h fl]. unfold floor_check_k1, floor_check.
  destruct (outside_rect x z s); [reflexivity|].
  assert (E1 : Qltb (Qabs (vy (normal s))) 0.1 = false) by (apply Qltb_false; exact H).
  assert (E2 : Qeq_bool (vy (normal s)) 0 = false).
  { destruct (Qeq_bool (vy (normal s)) 0) eqn:E; [|reflexivity].
    apply Qeq_bool_iff in E. rewrite E in H. vm_compute in H. exfalso. apply H. reflexivity. }
  assert (E3 : too_steep s = false).
  { unfold too_steep. apply Qltb_false. apply (Qle_trans _ 0.1); [vm_compute; discriminate|exact H]. }
  rewrite E1, E2, E3. reflexivity.
Qed.

Lemma floor_check_k1_dropped (x y z : Q) (acc : Q * option Surface) (s : Surface) :
  k1_keeps s = false -> floor_check_k1 x y z acc s = acc.
Proof.
  unfold k1_keeps. intros H. apply negb_false_iff in H.
  destruct acc as [h fl]. unfold floor_check_k1.
  destruct (outside_rect x z s); [reflexivity|]. rewrite H. reflexivity.
Qed.

(** X8. The [find_floor] of [sm644k1.x.py] (wall threshold [0.1] and an
    extra [ny == 0] test) returns exactly what the [find_floor] of the
    cat edition returns on the surfaces with [abs(ny) >= 0.1]: its
    [ny == 0] test never fires. *)
Theorem find_floor_k1_filter (x y z : Q) (ss : list Surface) :
  find_floor_k1 x y z ss = find_floor (filter k1_keeps ss) x y z.
Proof.
  unfold find_floor_k1, find_floor. change (-11000, None) with (FLOOR_NONE_Y, @None Surface).
  generalize (FLOOR_NONE_Y, @None Surface) as acc.
  induction ss as [|s rest IH]; intros acc; simpl; [reflexivity|].
  destruct (k1_keeps s) eqn:E.
  - rewrite floor_check_k1_kept by exact E. simpl. apply IH.
  - rewrite floor_check_k1_dropped by exact E. apply IH.
Qed.

(** *** [make_box] *)

Lemma fold_min_le (f : Vec3f -> Q) (l : list Vec3f) (a : Q) :
  fold_left (fun acc v => Qmin' acc (f v)) l a <= a /\
  (forall v, In v l -> fold_left (fun acc v => Qmin' acc (f v)) l a <= f v).
Proof.
  revert a. induction l as [|u r IH]; intros a; simpl.
  - split; [apply Qle_refl|intros v []].
  - destruct (IH (Qmin' a (f u))) as [H1 H2].
    assert (Ha : Qmin' a (f u) <= a /\ Qmin' a (f u) <= f u).
    { destruct (Qmin'_cases a (f u)) as [[H R]|[H R]]; rewrite R; split; lra. }
    split; [lra|]. intros v [<-|Hv]; [lra|apply H2, Hv].
Qed.

Lemma fold_max_ge (f : Vec3f -> Q) (l : list Vec3f) (a : Q) :
  a <= fold_left (fun acc v => Qmax' acc (f v)) l a /\
  (forall v, In v l -> f v <= fold_left (fun acc v => Qmax' acc (f v)) l a).
Proof.
  revert a. induction l as [|u r IH]; intros a; simpl.
  - split; [apply Qle_refl|intros v []].
  - destruct (IH (Qmax' a (f u))) as [H1 H2].
    assert (Ha : a <= Qmax' a (f u) /\ f u <= Qmax' a (f u)).
    { destruct (Qmax'_cases a (f u)) as [[H R]|[H R]]; rewrite R; split; lra. }
    split; [lra|]. intros v [<-|Hv]; [lra|apply H2, Hv].
Qed.

Lemma vmin_le (f : Vec3f -> Q) (s : Surface) (v : Vec3f) : In v (verts s) -> vmin f s <= f v.
Proof.
  unfold vmin, verts. destruct (fold_min_le f (vrest s) (f (v0 s))) as [H1 H2].
  intros [<-|Hv]; [exact H1|apply H2, Hv].
Qed.

Lemma vmax_ge (f : Vec3f -> Q) (s : Surface) (v : Vec3f) : In v (verts s) -> f v <= vmax f s.
Proof.
  unfold vmax, verts. destruct (fold_max_ge f (vrest s) (f (v0 s))) as [H1 H2].
  intros [<-|Hv]; [exact H1|apply H2, Hv].
Qed.

(** A surface whose normal has [ny = 0] never changes the [find_floor] accumulator. *)
Lemma floor_check_vertical (x y z : Q) (acc : Q * option Surface) (s : Surface) :
  vy (normal s) = 0 -> floor_check x y z acc s = acc.
Proof.
  intros H. destruct acc as [h fl]. unfold floor_check.
  destruct (outside_rect x z s); [reflexivity|].
  unfold too_steep. rewrite H. reflexivity.
Qed.

(** X9. Standing over a box built by [make_box]: at any [(px, pz)] within
    its top face widened by 10, [find_floor] over the box's surfaces
    returns the box's top [y + h/2] and its top face, whenever that height
    is above the sentinel and within the step allowance [qy + 150]; the
    four side faces never count as floors. *)
Theorem make_box_floor (x y z w h d : Q) (st : Z) (px qy pz : Q)
  (Hx : x - w / 2 - 10 <= px /\ px <= x + w / 2 + 10)
  (Hz : z - d / 2 - 10 <= pz /\ pz <= z + d / 2 + 10)
  (Hy : -11000 < y + h / 2 /\ y + h / 2 <= qy + 150) :
  fst (find_floor (make_box x y z w h d st) px qy pz) == y + h / 2 /\
  snd (find_floor (make_box x y z w h d st) px qy pz) = Some (box_top x y z w h d st).
Proof.
  set (t := box_top x y z w h d st).
  assert (Hin : forall v, In v (verts t) -> vmin vx t <= vx v /\ vx v <= vmax vx t /\
                                             vmin vz t <= vz v /\ vz v <= vmax vz t).
  { intros v Hv. repeat split; first [apply vmin_le | apply vmax_ge]; exact Hv. }
  destruct (Hin (mkVec (x - w / 2) (y + h / 2) (z - d / 2))) as [A1 [_ [A3 _]]]; [left; reflexivity|].
  destruct (Hin (mkVec (x + w / 2) (y + h / 2) (z + d / 2))) as [_ [B2 [_ B4]]];
    [right; right; left; reflexivity|].
  simpl in A1, A3, B2, B4.
  assert (Ho : outside_rect px pz t = false).
  { unfold outside_rect.
    repeat rewrite orb_false_iff; repeat split; apply Qltb_false; lra. }
  assert (Hp : plane_y px pz t == y + h / 2).
  { unfold plane_y. simpl. field. }
  assert (Hf : floor_check px qy pz (FLOOR_NONE_Y, None) t = (plane_y px pz t, Some t)).
  { unfold floor_check. rewrite Ho.
    replace (too_steep t) with false by reflexivity.
    rewrite (Qltb_compat FLOOR_NONE_Y FLOOR_NONE_Y _ (y + h / 2)), (Qleb_compat _ (y + h / 2) (qy + 150) (qy + 150));
      try reflexivity; try exact Hp.
    destruct Hy as [Hy1 Hy2].
    apply Qltb_true in Hy1. apply Qleb_true in Hy2. unfold FLOOR_NONE_Y. rewrite Hy1, Hy2. reflexivity. }
  assert (Hmb : make_box x y z w h d st = t :: tl (make_box x y z w h d st)) by reflexivity.
  assert (Hv : Forall (fun s => vy (normal s) = 0) (tl (make_box x y z w h d st))) by (repeat constructor).
  unfold find_floor. rewrite Hmb. cbn [fold_left]. rewrite Hf. clear Hmb.
  induction Hv as [|s rest Hs _ IH]; [split; [exact Hp|reflexivity]|].
  cbn [fold_left]. rewrite floor_check_vertical by exact Hs. exact IH.
Qed.

Lemma make_box_floor_witness :
  (0 - 100 / 2 - 10 <= 30 /\ 30 <= 0 + 100 / 2 + 10) /\
  (0 - 80 / 2 - 10 <= -45 /\ -45 <= 0 + 80 / 2 + 10) /\
  (-11000 < 20 + 40 / 2 /\ 20 + 40 / 2 <= 0 + 150) /\
  fst (find_floor (make_box 0 20 0 100 40 80 0) 30 0 (-45)) == 20 + 40 / 2 /\
  snd (find_floor (make_box 0 20 0 100 40 80 0) 30 0 (-45)) = Some (box_top 0 20 0 100 40 80 0).
Proof.
  assert (Hx : 0 - 100 / 2 - 10 <= 30 /\ 30 <= 0 + 100 / 2 + 10) by (split; vm_compute; discriminate).
  assert (Hz : 0 - 80 / 2 - 10 <= -45 /\ -45 <= 0 + 80 / 2 + 10) by (split; vm_compute; discriminate).
  assert (Hy : -11000 < 20 + 40 / 2 /\ 20 + 40 / 2 <= 0 + 150) by (split; vm_compute; [reflexivity|discriminate]).
  split; [exact Hx|]. split; [exact Hz|]. split; [exact Hy|].
  apply (make_box_floor 0 20 0 100 40 80 0 30 0 (-45) Hx Hz Hy).
Defined.

(** *** Ground and air steps *)

(** A surface returned by [find_floor] lies at most 150 above the query. *)
Lemma find_floor_some_le (ss : list Surface) (x y z : Q) (h : Q) (s : Surface) :
  find_floor ss x y z = (h, Some s) -> h <= y + 150.
Proof.
  unfold find_floor. pose proof (floor_fold_spec x y z ss FLOOR_NONE_Y None) as H.
  destruct (fold_left (floor_check x y z) ss (FLOOR_NONE_Y, None)) as [h' fl].
  intros E. injection E as -> ->.
  destruct H as (_ & _ & [Heq | (pre & s1 & post & _ & Hfl & Hh & He & _ & _)]).
  - discriminate.
  - rewrite Hh. unfold floor_eligible in He.
    apply andb_true_iff in He. apply Qleb_true. exact (proj2 He).
Qed.

(** X10. After [ground_step] the character is never below the floor
    height it recorded. On ['ground'] it stands exactly on that floor,
    at most 10 below its previous height and, when a floor surface was
    found, at most 250 above it (the query is at [pos.y + 100], with the
    150 step allowance); on ['air'] its height is unchanged and more
    than 10 above the floor. *)
Theorem ground_step_floor (surfs : list Surface) (m : MarioState) :
  let '(r, m') := ground_step surfs m in
  floor_y m' <= vy (pos m') /\
  (r = R_ground -> vy (pos m') = floor_y m' /\ vy (pos m) - 10 <= vy (pos m') /\
                   (floor m' <> None -> vy (pos m') <= vy (pos m) + 250)) /\
  (r = R_air -> vy (pos m') = vy (pos m) /\ floor_y m' + 10 < vy (pos m')).
Proof.
  unfold ground_step.
  destruct (find_floor surfs _ _ _) as [fy fl] eqn:E.
  destruct (Qltb (fy + 10) _) eqn:Ht; cbn [pos floor_y floor vx vy vz with_pos with_floor with_floor_y] in *.
  - apply Qltb_true in Ht. split; [lra|]. split; [discriminate|]. intros _. split; [reflexivity|lra].
  - apply Qltb_false in Ht. split; [apply Qle_refl|]. split; [|discriminate].
    intros _. split; [reflexivity|]. split; [lra|].
    destruct fl as [s|]; [|intros H; exfalso; apply H; reflexivity].
    intros _. apply find_floor_some_le in E. lra.
Qed.

Lemma air_loop_floor (sins coss : Q -> Q) (surfs : list Surface) (q : Vec3f) (n : nat) :
  forall m, (0 < n)%nat \/ floor_y m < vy (pos m) ->
  let '(r, m') := air_loop sins coss surfs n q m in
  (r = R_land -> vy (pos m') = floor_y m') /\ (r <> R_land -> floor_y m' < vy (pos m')).
Proof.
  induction n as [|n IH]; intros m Hm; cbn [air_loop].
  - destruct Hm as [Hm|Hm]; [inversion Hm|]. split; [discriminate|intros _; exact Hm].
  - destruct (find_floor surfs _ _ _) as [fy fl].
    destruct (Qleb _ fy) eqn:El.
    + cbn [pos floor_y vy with_pos with_floor with_floor_y].
      split; [reflexivity|intros H; exfalso; apply H; reflexivity].
    + apply Qleb_false in El.
      destruct (find_wall _ _ _ _ _ _) as [w|].
      * cbn [pos floor_y vy with_fvel zero_hvel with_wall with_vel with_pos with_floor with_floor_y].
        split; [discriminate|intros _; exact El].
      * apply IH. right. exact El.
Qed.

(** X11. After [air_step] the character is never below the floor height
    it recorded: on ['land'] it stands exactly on it, on ['air'] and
    ['wall'] it is strictly above it. *)
Theorem air_step_floor (sins coss : Q -> Q) (surfs : list Surface) (m : MarioState) :
  let '(r, m') := air_step sins coss surfs m in
  floor_y m' <= vy (pos m') /\
  (r = R_land -> vy (pos m') = floor_y m') /\ (r <> R_land -> floor_y m' < vy (pos m')).
Proof.
  unfold air_step.
  pose proof (air_loop_floor sins coss surfs (quarter (vel m)) 4 m (or_introl (Nat.lt_0_succ 3))) as H.
  destruct (air_loop sins coss surfs 4 (quarter (vel m)) m) as [r m'].
  destruct H as [H1 H2]. split; [|split; assumption].
  destruct r; try (apply Qlt_le_weak, H2; discriminate).
  rewrite (H1 eq_refl). apply Qle_refl.
Qed.

(** X12. Falling under [update_air]: from a vertical speed at or above
    [MAX_FALL], [n] ticks subtract [4] per tick until the speed reaches
    [MAX_FALL = -75], where it stays. *)
Theorem update_air_fall (sins coss : Q -> Q) (m : MarioState) (n : nat)
  (H : MAX_FALL <= vy (vel m)) :
  let v := vy (vel (iterate n (update_air sins coss) m)) in
  (vy (vel m) - 4 * inject_Z (Z.of_nat n) <= MAX_FALL -> v == MAX_FALL) /\
  (MAX_FALL <= vy (vel m) - 4 * inject_Z (Z.of_nat n) -> v == vy (vel m) - 4 * inject_Z (Z.of_nat n)).
Proof.
  cbv zeta. revert m H. induction n as [|n IH]; intros m H; cbn [iterate].
  - change (inject_Z (Z.of_nat 0)) with 0. split; intros; lra.
  - rewrite inject_Z_S.
    assert (E : vy (vel (update_air sins coss m)) =
                (if Qltb (vy (vel m) + GRAVITY) MAX_FALL then MAX_FALL else vy (vel m) + GRAVITY))
      by reflexivity.
    pose proof (inject_Z_nat_nonneg n) as Hn.
    unfold MAX_FALL, GRAVITY in *.
    destruct (Qltb (vy (vel m) + -4.0) (-75.0)) eqn:Hq.
    + apply Qltb_true in Hq.
      assert (H' : -75.0 <= vy (vel (update_air sins coss m))) by (rewrite E; apply Qle_refl).
      destruct (IH _ H') as [IH1 IH2]. rewrite E in IH1, IH2.
      split; intros Hc.
      * apply IH1. lra.
      * exfalso. lra.
    + apply Qltb_false in Hq.
      assert (H' : -75.0 <= vy (vel (update_air sins coss m))) by (rewrite E; exact Hq).
      destruct (IH _ H') as [IH1 IH2]. rewrite E in IH1, IH2.
      split; intros Hc.
      * apply IH1. lra.
      * rewrite IH2 by lra. ring.
Qed.

Lemma update_air_fall_witness :
  MAX_FALL <= vy (vel (with_vel (mkVec 0 42 0) mario0)) /\
  let v := vy (vel (iterate 40 (update_air sins_q coss_q) (with_vel (mkVec 0 42 0) mario0))) in
  (vy (vel (with_vel (mkVec 0 42 0) mario0)) - 4 * inject_Z (Z.of_nat 40) <= MAX_FALL -> v == MAX_FALL) /\
  (MAX_FALL <= vy (vel (with_vel (mkVec 0 42 0) mario0)) - 4 * inject_Z (Z.of_nat 40) ->
   v == vy (vel (with_vel (mkVec 0 42 0) mario0)) - 4 * inject_Z (Z.of_nat 40)).
Proof.
  assert (H : MAX_FALL <= vy (vel (with_vel (mkVec 0 42 0) mario0))) by (vm_compute; discriminate).
  split; [exact H|]. apply (update_air_fall sins_q coss_q _ 40 H).
Defined.

(** X13. [a_idle] never starts a fall: with none of A, Z, B pressed and
    no stick, the action stays the same, horizontal speed is zeroed and
    the vertical velocity is untouched; the height only changes by
    snapping onto a floor: over a floor more than 10 below (or over no
    floor at all) the character keeps its height, and otherwise its
    height becomes exactly the floor height it records. *)
Theorem a_idle_no_fall (surfs : list Surface) (m : MarioState) (c : Controller)
  (Hc : has (pressed c) IN_A = false /\ has (pressed c) IN_Z = false /\
        has (pressed c) IN_B = false /\ stick_mag c <= 0) :
  let m' := a_idle surfs m c in
  action m' = action m /\ fvel m' = 0 /\ vx (vel m') = 0 /\ vz (vel m') = 0 /\
  vy (vel m') = vy (vel m) /\
  (floor_y m' + 10 < vy (pos m) -> vy (pos m') = vy (pos m)) /\
  (vy (pos m) <= floor_y m' + 10 -> vy (pos m') = floor_y m').
Proof.
  destruct Hc as (HA & HZ & HB & Hs). cbv zeta. unfold a_idle.
  rewrite HA, HZ, HB.
  assert (Hs' : Qltb 0 (stick_mag c) = false) by (apply Qltb_false; exact Hs). rewrite Hs'.
  unfold ground_step.
  destruct (find_floor surfs _ _ _) as [fy fl].
  destruct (Qltb (fy + 10) _) eqn:Ht;
    cbn [snd pos vel fvel action floor_y vx vy vz with_pos with_floor with_floor_y with_vel with_fvel zero_hvel].
  - apply Qltb_true in Ht.
    cbn [snd pos vel fvel action floor_y vx vy vz with_pos with_floor with_floor_y with_vel with_fvel zero_hvel] in Ht.
    repeat split; try (intros; reflexivity). intros H. exfalso. lra.
  - apply Qltb_false in Ht. repeat split; try reflexivity. intros H. exfalso.
    cbn [snd pos vel fvel action floor_y vx vy vz with_pos with_floor with_floor_y with_vel with_fvel zero_hvel] in H, Ht.
    lra.
Qed.

Lemma a_idle_no_fall_witness :
  (has (pressed ctrl0) IN_A = false /\ has (pressed ctrl0) IN_Z = false /\
   has (pressed ctrl0) IN_B = false /\ stick_mag ctrl0 <= 0) /\
  let m' := a_idle [] (with_pos (mkVec 0 500 0) mario0) ctrl0 in
  action m' = action (with_pos (mkVec 0 500 0) mario0) /\ fvel m' = 0 /\ vx (vel m') = 0 /\
  vz (vel m') = 0 /\ vy (vel m') = vy (vel (with_pos (mkVec 0 500 0) mario0)) /\
  (floor_y m' + 10 < vy (pos (with_pos (mkVec 0 500 0) mario0)) ->
   vy (pos m') = vy (pos (with_pos (mkVec 0 500 0) mario0))) /\
  (vy (pos (with_pos (mkVec 0 500 0) mario0)) <= floor_y m' + 10 ->
   vy (pos m') = floor_y m').
Proof.
  assert (Hc : has (pressed ctrl0) IN_A = false /\ has (pressed ctrl0) IN_Z = false /\
               has (pressed ctrl0) IN_B = false /\ stick_mag ctrl0 <= 0)
    by (repeat split; vm_compute; try reflexivity; discriminate).
  split; [exact Hc|]. apply (a_idle_no_fall [] _ ctrl0 Hc).
Defined.

(** *** Timed actions under the per-tick dispatch *)

Lemma run_handler_cons (h : MarioState -> Controller -> MarioState) (c : Controller)
  (cs : list Controller) (m : MarioState) :
  run_handler h (c :: cs) m = run_handler h cs (h m c).
Proof. reflexivity. Qed.

Lemma run_handler_app (h : MarioState -> Controller -> MarioState) (cs ds : list Controller)
  (m : MarioState) :
  run_handler h (cs ++ ds) m = run_handler h ds (run_handler h cs m).
Proof. unfold run_handler. apply fold_left_app. Qed.

Lemma dispatch_gp (sins coss : Q -> Q) (surfs : list Surface) (m : MarioState) (c : Controller) :
  action m = ACT_GROUND_POUND -> dispatch sins coss surfs m c = a_gp sins coss surfs m c.
Proof. intros H. unfold dispatch. rewrite H. reflexivity. Qed.

Lemma dispatch_gpl (sins coss : Q -> Q) (surfs : list Surface) (m : MarioState) (c : Controller) :
  action m = ACT_GP_LAND -> dispatch sins coss surfs m c = a_gpl m c.
Proof. intros H. unfold dispatch. rewrite H. reflexivity. Qed.

Lemma dispatch_star (sins coss : Q -> Q) (surfs : list Surface) (m : MarioState) (c : Controller) :
  action m = ACT_STAR_DANCE -> dispatch sins coss surfs m c = a_star m c.
Proof. intros H. unfold dispatch. rewrite H. reflexivity. Qed.

Lemma last_of_length (cs : list Controller) (n : nat) :
  length cs = S n -> exists cs' c, cs = cs' ++ [c] /\ length cs' = n.
Proof.
  intros H. destruct cs as [|c0 r] using rev_ind; [discriminate|].
  exists r, c0. split; [reflexivity|]. rewrite length_app in H. simpl in H. lia.
Qed.

Lemma gp_windup_run (sins coss : Q -> Q) (surfs : list Surface) (cs : list Controller) :
  forall m, action m = ACT_GROUND_POUND -> astate m = 0%Z -> (0 <= atimer m)%Z ->
  (atimer m + Z.of_nat (length cs) <= 10)%Z ->
  let m' := run_handler (dispatch sins coss surfs) cs m in
  action m' = ACT_GROUND_POUND /\ astate m' = 0%Z /\
  atimer m' = (atimer m + Z.of_nat (length cs))%Z /\ pos m' = pos m /\
  (cs <> [] -> vel m' = mkVec 0 0 0).
Proof.
  induction cs as [|c cs IH]; intros m Ha Hs Ht Hl; cbv zeta.
  - simpl. rewrite Z.add_0_r. repeat split; auto. intros H; exfalso; apply H; reflexivity.
  - rewrite run_handler_cons, dispatch_gp by exact Ha.
    simpl length in Hl. rewrite Nat2Z.inj_succ in Hl.
    assert (E : a_gp sins coss surfs m c =
                incr_atimer (with_vel_y 0 (zero_hvel (with_fvel 0 m)))).
    { unfold a_gp. rewrite Hs. simpl Z.eqb. cbv iota.
      replace (10 <? atimer (incr_atimer (with_vel_y 0 (zero_hvel (with_fvel 0 m)))))%Z with false.
      - reflexivity.
      - symmetry. apply Z.ltb_ge. simpl. lia. }
    rewrite E. set (m1 := incr_atimer (with_vel_y 0 (zero_hvel (with_fvel 0 m)))).
    destruct (IH m1) as (A1 & A2 & A3 & A4 & A5); simpl; try lia; try assumption.
    repeat split; try assumption.
    + rewrite A3. change (atimer m1) with (atimer m + 1)%Z. cbn [length]. lia.
    + intros _. destruct cs as [|c' cs']; [simpl; reflexivity|].
      apply A5. discriminate.
Qed.

(** X14. Ground pound under the per-tick dispatch: from its first tick
    ([astate = 0], [atimer = 0]) the character hangs in place for 10
    ticks whatever the input, with zero velocity after each of them, and
    on the 11th tick it
    starts dropping at [-60], still in the ground pound and at the same
    position. *)
Theorem ground_pound_windup (sins coss : Q -> Q) (surfs : list Surface) (m : MarioState)
  (cs : list Controller)
  (Ha : action m = ACT_GROUND_POUND) (Hs : astate m = 0%Z) (Ht : atimer m = 0%Z) :
  let m' := run_handler (dispatch sins coss surfs) cs m in
  ((length cs <= 10)%nat ->
     action m' = ACT_GROUND_POUND /\ astate m' = 0%Z /\ atimer m' = Z.of_nat (length cs) /\
     pos m' = pos m /\ ((1 <= length cs)%nat -> vel m' = mkVec 0 0 0)) /\
  (length cs = 11%nat ->
     action m' = ACT_GROUND_POUND /\ astate m' = 1%Z /\ vel m' = mkVec 0 (-60.0) 0 /\
     pos m' = pos m).
Proof.
  cbv zeta. split.
  - intros Hl. destruct (gp_windup_run sins coss surfs cs m Ha Hs) as (A1 & A2 & A3 & A4 & A5);
      try lia.
    repeat split; auto.
    + rewrite A3, Ht. reflexivity.
    + intros H1. apply A5. intros ->. simpl in H1. lia.
  - intros Hl. destruct (last_of_length cs 10 Hl) as (cs' & c & -> & Hl').
    rewrite run_handler_app.
    destruct (gp_windup_run sins coss surfs cs' m Ha Hs) as (A1 & A2 & A3 & A4 & A5); try lia.
    set (m1 := run_handler (dispatch sins coss surfs) cs' m) in *.
    assert (Hv : vel m1 = mkVec 0 0 0).
    { apply A5. intros ->. discriminate. }
    change (run_handler (dispatch sins coss surfs) [c] m1) with (dispatch sins coss surfs m1 c).
    rewrite dispatch_gp by exact A1.
    unfold a_gp. rewrite A2. simpl Z.eqb. cbv iota.
    replace (10 <? atimer (incr_atimer (with_vel_y 0 (zero_hvel (with_fvel 0 m1)))))%Z with true.
    + cbn. rewrite A1, A4. repeat split.
    + symmetry. apply Z.ltb_lt. simpl. rewrite A3, Ht, Hl'. reflexivity.
Qed.

Lemma ground_pound_windup_witness :
  action (with_action ACT_GROUND_POUND mario0) = ACT_GROUND_POUND /\
  astate (with_action ACT_GROUND_POUND mario0) = 0%Z /\
  atimer (with_action ACT_GROUND_POUND mario0) = 0%Z /\
  let m' := run_handler (dispatch sins_q coss_q []) (repeat ctrl0 11) (with_action ACT_GROUND_POUND mario0) in
  ((length (repeat ctrl0 11) <= 10)%nat ->
     action m' = ACT_GROUND_POUND /\ astate m' = 0%Z /\ atimer m' = Z.of_nat (length (repeat ctrl0 11)) /\
     pos m' = pos (with_action ACT_GROUND_POUND mario0) /\
     ((1 <= length (repeat ctrl0 11))%nat -> vel m' = mkVec 0 0 0)) /\
  (length (repeat ctrl0 11) = 11%nat ->
     action m' = ACT_GROUND_POUND /\ astate m' = 1%Z /\ vel m' = mkVec 0 (-60.0) 0 /\
     pos m' = pos (with_action ACT_GROUND_POUND mario0)).
Proof.
  split; [reflexivity|]. split; [reflexivity|]. split; [reflexivity|].
  apply ground_pound_windup; reflexivity.
Defined.

(** The part of a tick of [a_gpl] that keeps the landing: within the first
    5 ticks whatever the input, and up to tick 15 without A and stick. *)
Lemma a_gpl_waits (m : MarioState) (c : Controller) :
  (0 <= atimer m)%Z ->
  ((atimer m + 1 <= 5)%Z \/
   (has (pressed c) IN_A = false /\ stick_mag c <= 0 /\ (atimer m + 1 <= 15)%Z)) ->
  a_gpl m c = incr_atimer m.
Proof.
  intros H0 H. unfold a_gpl. cbn [atimer incr_atimer with_atimer].
  destruct (5 <? atimer m + 1)%Z eqn:E5; [|reflexivity].
  apply Z.ltb_lt in E5. destruct H as [H|(HA & Hs & H15)]; [lia|].
  rewrite HA. replace (Qltb 0 (stick_mag c)) with false by (symmetry; apply Qltb_false; exact Hs).
  replace (15 <? atimer m + 1)%Z with false by (symmetry; apply Z.ltb_ge; exact H15).
  reflexivity.
Qed.

Lemma gpl_run (sins coss : Q -> Q) (surfs : list Surface) (cs : list Controller) :
  forall m, action m = ACT_GP_LAND -> (0 <= atimer m)%Z ->
  ((atimer m + Z.of_nat (length cs) <= 5)%Z \/
   ((forall c, In c cs -> has (pressed c) IN_A = false /\ stick_mag c <= 0) /\
    (atimer m + Z.of_nat (length cs) <= 15)%Z)) ->
  let m' := run_handler (dispatch sins coss surfs) cs m in
  action m' = ACT_GP_LAND /\ atimer m' = (atimer m + Z.of_nat (length cs))%Z.
Proof.
  induction cs as [|c cs IH]; intros m Ha H0 H; cbv zeta.
  - simpl. split; [exact Ha|lia].
  - rewrite run_handler_cons, dispatch_gpl by exact Ha.
    cbn [length] in H. rewrite Nat2Z.inj_succ in H.
    rewrite a_gpl_waits; [|exact H0|].
    + destruct (IH (incr_atimer m)) as [A1 A2]; cbn [atimer incr_atimer with_atimer action].
      * exact Ha.
      * lia.
      * destruct H as [H|[Hc H]]; [left; lia|right; split; [intros c' Hc'; apply Hc; right; exact Hc'|lia]].
      * split; [exact A1|]. rewrite A2. cbn [atimer incr_atimer with_atimer length]. lia.
    + destruct H as [H|[Hc H]]; [left; lia|].
      destruct (Hc c (or_introl eq_refl)) as [HA Hs]. right. repeat split; auto. lia.
Qed.

(** X15. Ground-pound landing under the per-tick dispatch: from its
    first tick it cannot be left during 5 ticks whatever the input; with
    no A and no stick it lasts 15 ticks and turns to idle on the 16th. *)
Theorem gp_land_recovery (sins coss : Q -> Q) (surfs : list Surface) (m : MarioState)
  (cs : list Controller) (Ha : action m = ACT_GP_LAND) (Ht : atimer m = 0%Z) :
  let m' := run_handler (dispatch sins coss surfs) cs m in
  ((length cs <= 5)%nat -> action m' = ACT_GP_LAND) /\
  ((forall c, In c cs -> has (pressed c) IN_A = false /\ stick_mag c <= 0) ->
   ((length cs <= 15)%nat -> action m' = ACT_GP_LAND) /\
   (length cs = 16%nat -> action m' = ACT_IDLE)).
Proof.
  cbv zeta. split; [|intros Hc; split].
  - intros Hl. apply (gpl_run sins coss surfs cs m Ha); [lia|left; lia].
  - intros Hl. apply (gpl_run sins coss surfs cs m Ha); [lia|right; split; [exact Hc|lia]].
  - intros Hl. destruct (last_of_length cs 15 Hl) as (cs' & c & -> & Hl').
    rewrite run_handler_app.
    destruct (gpl_run sins coss surfs cs' m Ha) as [A1 A2];
      [lia|right; split; [intros c' Hc'; apply Hc, in_or_app; left; exact Hc'|lia]|].
    set (m1 := run_handler (dispatch sins coss surfs) cs' m) in *.
    change (run_handler (dispatch sins coss surfs) [c] m1) with (dispatch sins coss surfs m1 c).
    rewrite dispatch_gpl by exact A1.
    destruct (Hc c) as [HA Hs]; [apply in_or_app; right; left; reflexivity|].
    unfold a_gpl. cbn [atimer incr_atimer with_atimer]. rewrite A2, Ht, Hl'.
    simpl. rewrite HA.
    replace (Qltb 0 (stick_mag c)) with false by (symmetry; apply Qltb_false; exact Hs).
    reflexivity.
Qed.

Lemma gp_land_recovery_witness :
  action (with_action ACT_GP_LAND mario0) = ACT_GP_LAND /\
  atimer (with_action ACT_GP_LAND mario0) = 0%Z /\
  let m' := run_handler (dispatch sins_q coss_q []) (repeat ctrl0 16) (with_action ACT_GP_LAND mario0) in
  ((length (repeat ctrl0 16) <= 5)%nat -> action m' = ACT_GP_LAND) /\
  ((forall c, In c (repeat ctrl0 16) -> has (pressed c) IN_A = false /\ stick_mag c <= 0) ->
   ((length (repeat ctrl0 16) <= 15)%nat -> action m' = ACT_GP_LAND) /\
   (length (repeat ctrl0 16) = 16%nat -> action m' = ACT_IDLE)).
Proof.
  split; [reflexivity|]. split; [reflexivity|].
  apply gp_land_recovery; reflexivity.
Defined.

Lemma star_run (sins coss : Q -> Q) (surfs : list Surface) (cs : list Controller) :
  forall m, action m = ACT_STAR_DANCE -> (0 <= atimer m)%Z ->
  (atimer m + Z.of_nat (length cs) <= 90)%Z ->
  let m' := run_handler (dispatch sins coss surfs) cs m in
  action m' = ACT_STAR_DANCE /\ atimer m' = (atimer m + Z.of_nat (length cs))%Z /\
  pos m' = pos m /\ (cs <> [] -> vel m' = mkVec 0 0 0 /\ fvel m' = 0).
Proof.
  induction cs as [|c cs IH]; intros m Ha H0 H; cbv zeta.
  - simpl. split; [exact Ha|]. split; [lia|]. split; [reflexivity|]. intros Hn; exfalso; apply Hn; reflexivity.
  - rewrite run_handler_cons, dispatch_star by exact Ha.
    cbn [length] in H. rewrite Nat2Z.inj_succ in H.
    assert (E : a_star m c = incr_atimer (with_vel (mkVec 0 0 0) (with_fvel 0 m))).
    { unfold a_star. cbn [atimer incr_atimer with_atimer with_vel with_fvel].
      replace (90 <? atimer m + 1)%Z with false by (symmetry; apply Z.ltb_ge; lia). reflexivity. }
    rewrite E. set (m1 := incr_atimer (with_vel (mkVec 0 0 0) (with_fvel 0 m))).
    destruct (IH m1) as (A1 & A2 & A3 & A4); [exact Ha|simpl; lia|simpl; lia|].
    repeat split; try assumption.
    + rewrite A2. change (atimer m1) with (atimer m + 1)%Z. cbn [length]. lia.
    + destruct cs as [|c' cs']; [reflexivity|]. refine (proj1 (A4 _)). discriminate.
    + destruct cs as [|c' cs']; [reflexivity|]. refine (proj2 (A4 _)). discriminate.
Qed.

(** X16. The star dance under the per-tick dispatch: from its first tick
    the character is held in place with zero velocity and speed for 90
    ticks whatever the input, and turns to idle on the 91st tick, with
    the star dance recorded as its previous action. *)
Theorem star_dance_duration (sins coss : Q -> Q) (surfs : list Surface) (m : MarioState)
  (cs : list Controller) (Ha : action m = ACT_STAR_DANCE) (Ht : atimer m = 0%Z) :
  let m' := run_handler (dispatch sins coss surfs) cs m in
  ((1 <= length cs <= 90)%nat ->
     action m' = ACT_STAR_DANCE /\ vel m' = mkVec 0 0 0 /\ fvel m' = 0 /\ pos m' = pos m) /\
  (length cs = 91%nat ->
     action m' = ACT_IDLE /\ prev_act m' = ACT_STAR_DANCE /\ vel m' = mkVec 0 0 0 /\ pos m' = pos m).
Proof.
  cbv zeta. split.
  - intros Hl. destruct (star_run sins coss surfs cs m Ha) as (A1 & A2 & A3 & A4); [lia|lia|].
    destruct A4 as [A4 A5]; [destruct cs; [simpl in Hl; lia|discriminate]|].
    repeat split; assumption.
  - intros Hl. destruct (last_of_length cs 90 Hl) as (cs' & c & -> & Hl').
    rewrite run_handler_app.
    destruct (star_run sins coss surfs cs' m Ha) as (A1 & A2 & A3 & _); [lia|lia|].
    set (m1 := run_handler (dispatch sins coss surfs) cs' m) in *.
    change (run_handler (dispatch sins coss surfs) [c] m1) with (dispatch sins coss surfs m1 c).
    rewrite dispatch_star by exact A1.
    unfold a_star. cbn [atimer incr_atimer with_atimer with_vel with_fvel].
    rewrite A2, Ht, Hl'. simpl. rewrite A1, A3. repeat split.
Qed.

Lemma star_dance_duration_witness :
  action (with_action ACT_STAR_DANCE mario0) = ACT_STAR_DANCE /\
  atimer (with_action ACT_STAR_DANCE mario0) = 0%Z /\
  let m' := run_handler (dispatch sins_q coss_q []) (repeat ctrl0 91) (with_action ACT_STAR_DANCE mario0) in
  ((1 <= length (repeat ctrl0 91) <= 90)%nat ->
     action m' = ACT_STAR_DANCE /\ vel m' = mkVec 0 0 0 /\ fvel m' = 0 /\
     pos m' = pos (with_action ACT_STAR_DANCE mario0)) /\
  (length (repeat ctrl0 91) = 91%nat ->
     action m' = ACT_IDLE /\ prev_act m' = ACT_STAR_DANCE /\ vel m' = mkVec 0 0 0 /\
     pos m' = pos (with_action ACT_STAR_DANCE mario0)).
Proof.
  split; [reflexivity|]. split; [reflexivity|].
  apply star_dance_duration; reflexivity.
Defined.

(** *** Walking speed *)

Lemma ground_step_fvel (surfs : list Surface) (m : MarioState) :
  fvel (snd (ground_step surfs m)) = fvel m.
Proof.
  unfold ground_step. destruct (find_floor surfs _ _ _) as [fy fl].
  destruct (Qltb _ _); reflexivity.
Qed.

Lemma walk_move_fvel (sins coss : Q -> Q) (surfs : list Surface) (m : MarioState) (c : Controller) :
  fvel (walk_move sins coss surfs m c) =
  (if Qltb (fvel m) (stick_mag c * MAX_WALK) then Qmin' (fvel m + 1.5) (stick_mag c * MAX_WALK)
   else Qmax' (fvel m - 1.0) (stick_mag c * MAX_WALK)).
Proof.
  unfold walk_move. cbn [fvel with_face_y].
  set (f := if Qltb (fvel m) (stick_mag c * MAX_WALK) then _ else _).
  pose proof (ground_step_fvel surfs
    (set_fvel sins coss f (with_fvel f (with_face_y (approach_angle (face_y m) (iyaw m) 11.25) m)))) as E.
  destruct (ground_step surfs _) as [r m2]. cbn [snd] in E.
  destruct r; destruct (0 <? jtimer _)%Z; cbn [fvel with_jtimer with_jcount set_act with_atimer
    with_astate with_action with_prev_act]; exact E.
Qed.

(** X17. Walking speed stays within [MAX_WALK]: for a stick magnitude in
    [[0, 1]] (the main loop sets [1.0] or [0]), a tick of [a_walk] from a
    forward speed in [[-32, 32]] leaves it there, changing it by at most
    1.5. *)
Theorem a_walk_speed_bound (sins coss : Q -> Q) (surfs : list Surface) (m : MarioState)
  (c : Controller) (Hs : 0 <= stick_mag c <= 1) (Hf : - MAX_WALK <= fvel m <= MAX_WALK) :
  let f' := fvel (a_walk sins coss surfs m c) in
  - MAX_WALK <= f' <= MAX_WALK /\ Qabs (f' - fvel m) <= 1.5.
Proof.
  cbv zeta. unfold MAX_WALK in *.
  assert (Hsame : - (32.0) <= fvel m <= 32.0 /\ Qabs (fvel m - fvel m) <= 1.5).
  { split; [exact Hf|]. rewrite Qabs_Qle_condition. lra. }
  unfold a_walk.
  destruct (has (pressed c) IN_A).
  { destruct (Qltb 10 (fvel m) && has (down c) IN_Z_D); [exact Hsame|].
    destruct (_ && _); [exact Hsame|]. destruct (2 <=? _)%Z; exact Hsame. }
  destruct (has (pressed c) IN_B); [exact Hsame|].
  destruct (Qeq_bool (stick_mag c) 0); [exact Hsame|].
  rewrite walk_move_fvel. unfold MAX_WALK. rewrite Qabs_Qle_condition.
  destruct (Qltb (fvel m) (stick_mag c * 32.0)) eqn:E.
  - apply Qltb_true in E.
    destruct (Qmin'_cases (fvel m + 1.5) (stick_mag c * 32.0)) as [[H R]|[H R]]; rewrite R; lra.
  - apply Qltb_false in E.
    destruct (Qmax'_cases (fvel m - 1.0) (stick_mag c * 32.0)) as [[H R]|[H R]]; rewrite R; lra.
Qed.

Lemma a_walk_speed_bound_witness :
  (0 <= stick_mag (mkCtrl 0 1 1 0 0) <= 1) /\
  (- MAX_WALK <= fvel (with_action ACT_WALKING mario0) <= MAX_WALK) /\
  let f' := fvel (a_walk sins_q coss_q [] (with_action ACT_WALKING mario0) (mkCtrl 0 1 1 0 0)) in
  - MAX_WALK <= f' <= MAX_WALK /\ Qabs (f' - fvel (with_action ACT_WALKING mario0)) <= 1.5.
Proof.
  assert (Hs : 0 <= stick_mag (mkCtrl 0 1 1 0 0) <= 1) by (split; vm_compute; discriminate).
  assert (Hf : - MAX_WALK <= fvel (with_action ACT_WALKING mario0) <= MAX_WALK)
    by (split; vm_compute; discriminate).
  split; [exact Hs|]. split; [exact Hf|].
  apply (a_walk_speed_bound sins_q coss_q [] _ _ Hs Hf).
Defined.

(** *** Invulnerability in the game loop *)

Lemma iterate_add {X : Type} (f : X -> X) (a b : nat) (x : X) :
  iterate (a + b) f x = iterate b f (iterate a f x).
Proof. revert x. induction a as [|a IH]; intros x; [reflexivity|]. simpl. apply IH. Qed.

Lemma iterate_succ_r {X : Type} (f : X -> X) (n : nat) (x : X) :
  iterate (S n) f x = f (iterate n f x).
Proof. rewrite <- Nat.add_1_r, iterate_add. reflexivity. Qed.

Lemma contact_tick_fields (amt : Z) (m : MarioState) :
  let i := if (0 <? inv m)%Z then (inv m - 1)%Z else inv m in
  inv (contact_tick amt m) = (if (0 <? i)%Z then i else 60%Z) /\
  health (contact_tick amt m) = (if (0 <? i)%Z then health m else Z.max 0 (health m - amt)).
Proof.
  unfold contact_tick, take_dmg, tick_timers.
  destruct (0 <? inv m)%Z; destruct (0 <? hurt _)%Z; cbn; destruct (0 <? _)%Z; split; reflexivity.
Qed.

Lemma contact_block (amt : Z) (j : nat) :
  forall m, (0 <= inv m <= 1)%Z -> (j < 60)%nat ->
  inv (iterate (S j) (contact_tick amt) m) = (60 - Z.of_nat j)%Z /\
  health (iterate (S j) (contact_tick amt) m) = Z.max 0 (health m - amt).
Proof.
  induction j as [|j IH]; intros m Hi Hj.
  - simpl. destruct (contact_tick_fields amt m) as [E1 E2]. cbv zeta in E1, E2.
    rewrite E1, E2.
    destruct (0 <? inv m)%Z eqn:H1; [apply Z.ltb_lt in H1|apply Z.ltb_ge in H1];
      (destruct (0 <? _)%Z eqn:H2; [apply Z.ltb_lt in H2; lia|]); split; reflexivity.
  - rewrite iterate_succ_r. destruct (IH m Hi) as [A1 A2]; [lia|].
    set (m1 := iterate (S j) (contact_tick amt) m) in *.
    destruct (contact_tick_fields amt m1) as [E1 E2]. cbv zeta in E1, E2.
    rewrite A1 in E1, E2.
    replace (0 <? 60 - Z.of_nat j)%Z with true in E1, E2 by (symmetry; apply Z.ltb_lt; lia).
    replace (0 <? 60 - Z.of_nat j - 1)%Z with true in E1, E2 by (symmetry; apply Z.ltb_lt; lia).
    rewrite E1, E2, A2. split; [lia|reflexivity].
Qed.

Lemma contact_blocks (amt : Z) (Ha : (0 <= amt)%Z) (q : nat) :
  forall m, (0 <= inv m <= 1)%Z -> (0 <= health m)%Z ->
  (0 <= inv (iterate (60 * q) (contact_tick amt) m) <= 1)%Z /\
  health (iterate (60 * q) (contact_tick amt) m) = Z.max 0 (health m - Z.of_nat q * amt).
Proof.
  induction q as [|q IH]; intros m Hi Hh.
  - simpl. split; [exact Hi|lia].
  - replace (60 * S q)%nat with (60 * q + S 59)%nat by lia.
    rewrite iterate_add. destruct (IH m Hi Hh) as [A1 A2].
    destruct (contact_block amt 59 _ A1) as [B1 B2]; [lia|].
    rewrite B1, B2, A2. split; [simpl; lia|]. rewrite Nat2Z.inj_succ. lia.
Qed.

(** X18. Contact damage is rate-limited by [inv]: when a damaging object
    calls [take_dmg(amt)] on every tick of [main] (after the timer
    countdown), starting from a vulnerable character, [n] ticks take off
    [amt] exactly [ceil(n / 60)] times, never going below zero. *)
Theorem contact_damage_rate (amt : Z) (m : MarioState) (n : nat)
  (Ha : (0 <= amt)%Z) (Hh : (0 <= health m)%Z) (Hi : inv m = 0%Z) :
  health (iterate n (contact_tick amt) m) =
  Z.max 0 (health m - Z.of_nat ((n + 59) / 60) * amt).
Proof.
  pose proof (Nat.div_mod_eq n 60) as Hn. pose proof (Nat.mod_upper_bound n 60) as Hr.
  specialize (Hr ltac:(discriminate)).
  set (q := (n / 60)%nat) in *. set (r := (n mod 60)%nat) in *. clearbody q r.
  assert (Hi' : (0 <= inv m <= 1)%Z) by lia.
  rewrite Hn, iterate_add. destruct (contact_blocks amt Ha q m Hi' Hh) as [A1 A2].
  destruct r as [|j] eqn:Er.
  - replace ((60 * q + 0 + 59) / 60)%nat with q.
    + simpl. exact A2.
    + apply (Nat.div_unique _ _ _ 59); lia.
  - destruct (contact_block amt j _ A1) as [_ B2]; [lia|].
    rewrite B2, A2.
    replace ((60 * q + S j + 59) / 60)%nat with (S q).
    + rewrite Nat2Z.inj_succ. lia.
    + apply (Nat.div_unique _ _ _ j); lia.
Qed.

Lemma contact_damage_rate_witness :
  (0 <= 0x100)%Z /\ (0 <= health mario0)%Z /\ inv mario0 = 0%Z /\
  health (iterate 61 (contact_tick 0x100) mario0) =
  Z.max 0 (health mario0 - Z.of_nat ((61 + 59) / 60) * 0x100).
Proof.
  split; [lia|]. split; [vm_compute; discriminate|]. split; [reflexivity|].
  apply contact_damage_rate; [lia|vm_compute; discriminate|reflexivity].
Defined.

(** *** Particles *)

Lemma filter_map_swap {X Y : Type} (f : X -> Y) (p : Y -> bool) (l : list X) :
  filter p (map f l) = map f (filter (fun x => p (f x)) l).
Proof.
  induction l as [|x r IH]; simpl; [reflexivity|].
  destruct (p (f x)); simpl; rewrite IH; reflexivity.
Qed.

Lemma filter_filter {X : Type} (p q : X -> bool) (l : list X) :
  filter p (filter q l) = filter (fun x => q x && p x) l.
Proof.
  induction l as [|x r IH]; simpl; [reflexivity|].
  destruct (q x); simpl; [destruct (p x); simpl; rewrite IH|rewrite IH]; reflexivity.
Qed.

Lemma filter_ext' {X : Type} (p q : X -> bool) (l : list X) :
  (forall x, p x = q x) -> filter p l = filter q l.
Proof.
  intros H. induction l as [|x r IH]; simpl; [reflexivity|]. rewrite H, IH. reflexivity.
Qed.

Lemma iterate_move_life (n : nat) (p : Particle) :
  life (iterate n particle_move p) = (life p - Z.of_nat n)%Z.
Proof.
  revert p. induction n as [|n IH]; intros p; simpl iterate; [lia|].
  rewrite IH. cbn [life particle_move]. lia.
Qed.

(** X19. [Particles.update] run [n] times on live particles (every
    particle is emitted with a positive [life] and [update] drops the
    others) keeps exactly those whose [life] exceeds [n], in their order,
    each moved [n] times: a particle emitted with [life = l] survives
    [l - 1] updates and is gone after the [l]-th. *)
Theorem particles_lifetime (n : nat) (ps : list Particle)
  (Halive : Forall (fun p => (0 < life p)%Z) ps) :
  iterate n particles_update ps =
  map (iterate n particle_move) (filter (fun p => (Z.of_nat n <? life p)%Z) ps).
Proof.
  induction n as [|n IH].
  - simpl. rewrite map_id. induction Halive as [|p r Hp _ IHr]; [reflexivity|].
    simpl. apply Z.ltb_lt in Hp. rewrite Hp, <- IHr. reflexivity.
  - rewrite iterate_succ_r, IH. unfold particles_update.
    rewrite map_map, filter_map_swap, filter_filter.
    rewrite (map_ext (fun x => particle_move (iterate n particle_move x)) (iterate (S n) particle_move))
      by (intros; symmetry; apply iterate_succ_r).
    f_equal.
    + apply filter_ext'. intros p. rewrite <- iterate_succ_r, iterate_move_life.
      rewrite Nat2Z.inj_succ.
      destruct (Z.of_nat n <? life p)%Z eqn:E1; simpl.
      * apply Z.ltb_lt in E1.
        destruct (0 <? life p - Z.succ (Z.of_nat n))%Z eqn:E2; symmetry;
          [apply Z.ltb_lt in E2; apply Z.ltb_lt; lia|apply Z.ltb_ge in E2; apply Z.ltb_ge; lia].
      * apply Z.ltb_ge in E1. symmetry. apply Z.ltb_ge. lia.
Qed.

Definition spark (l : Z) : Particle := mkParticle (mkVec 0 0 0) (mkVec 1 2 3) (255%Z, 200%Z, 0%Z) l 3.0.

Lemma particles_lifetime_witness :
  Forall (fun p => (0 < life p)%Z) [spark 20; spark 3; spark 5] /\
  iterate 4 particles_update [spark 20; spark 3; spark 5] =
  map (iterate 4 particle_move) (filter (fun p => (Z.of_nat 4 <? life p)%Z) [spark 20; spark 3; spark 5]).
Proof.
  assert (H : Forall (fun p => (0 < life p)%Z) [spark 20; spark 3; spark 5])
    by (repeat constructor; reflexivity).
  split; [exact H|]. apply (particles_lifetime 4 _ H).
Defined.

(** X20. [rot_pt] is a rotation about the vertical axis through the
    camera: when [sin ay ^ 2 + cos ay ^ 2 = 1], the rotated point keeps
    the horizontal distance to the camera, and its height is the height
    relative to the camera. *)
Theorem rot_pt_isometry (sins coss : Q -> Q) (v : Vec3f) (cx cy cz ay : Q)
  (Htrig : sins ay * sins ay + coss ay * coss ay == 1) :
  let '(rx, ry, rz) := rot_pt sins coss v cx cy cz ay in
  rx * rx + rz * rz == (vx v - cx) * (vx v - cx) + (vz v - cz) * (vz v - cz) /\
  ry = vy v - cy.
Proof.
  unfold rot_pt. split; [|reflexivity].
  set (x := vx v - cx). set (z := vz v - cz). set (s := sins ay). set (c := coss ay).
  fold s c in Htrig.
  setoid_replace ((x * c - z * s) * (x * c - z * s) + (x * s + z * c) * (x * s + z * c))
    with ((x * x + z * z) * (s * s + c * c)) by ring.
  rewrite Htrig. ring.
Qed.

Lemma rot_pt_isometry_witness :
  sins_q 0 * sins_q 0 + coss_q 0 * coss_q 0 == 1 /\
  (let '(rx, ry, rz) := rot_pt sins_q coss_q (mkVec 3 7 4) 0 2 0 0 in
   rx * rx + rz * rz == (3 - 0) * (3 - 0) + (4 - 0) * (4 - 0) /\ ry = 7 - 2).
Proof.
  assert (H : sins_q 0 * sins_q 0 + coss_q 0 * coss_q 0 == 1) by reflexivity.
  split; [exact H|]. exact (rot_pt_isometry sins_q coss_q (mkVec 3 7 4) 0 2 0 0 H).
Defined.

Lemma py_int_inject_Z (z : Z) : py_int (inject_Z z) = z.
Proof.
  unfold py_int. destruct (Qleb 0 (inject_Z z)) eqn:E.
  - apply Qfloor_Z.
  - change (- inject_Z z) with (inject_Z (- z)). rewrite Qfloor_Z. lia.
Qed.

(** X21. [_cc] always yields channels in [0, 255] and returns integer
    colours that are already in range unchanged. *)
Theorem cc_range_and_fixpoint (c : Q * Q * Q) (r g b : Z) :
  (let '(r', g', b') := cc c in
   (0 <= r' <= 255 /\ 0 <= g' <= 255 /\ 0 <= b' <= 255)%Z) /\
  ((0 <= r <= 255)%Z -> (0 <= g <= 255)%Z -> (0 <= b <= 255)%Z ->
   cc (inject_Z r, inject_Z g, inject_Z b) = (r, g, b)).
Proof.
  split.
  - destruct c as [[r' g'] b']. unfold cc, cc1. lia.
  - intros Hr Hg Hb. unfold cc, cc1. rewrite !py_int_inject_Z. f_equal; [f_equal|]; lia.
Qed.

Lemma cc_range_and_fixpoint_witness :
  (let '(r', g', b') := cc (300.5, -4.7, 17.9) in
   (0 <= r' <= 255 /\ 0 <= g' <= 255 /\ 0 <= b' <= 255)%Z) /\
  ((0 <= 12 <= 255)%Z -> (0 <= 0 <= 255)%Z -> (0 <= 255 <= 255)%Z ->
   cc (inject_Z 12, inject_Z 0, inject_Z 255) = (12%Z, 0%Z, 255%Z)).
Proof. exact (cc_range_and_fixpoint (300.5, -4.7, 17.9) 12 0 255). Defined.

Ltac split_interact H :=
  cbv beta zeta delta [interact_one] in H;
  repeat match type of H with
  | context [match otype ?o with _ => _ end] => let E := fresh "E" in destruct (otype o) eqn:E
  | context [if ?b then _ else _] => let E := fresh "E" in destruct b eqn:E
  end.

Lemma interact_one_follows sqrt atan2_deg lvl pr m o m' o' r :
  interact_one sqrt atan2_deg lvl pr m o = (m', o', r) -> obj_follows o o'.
Proof.
  intros H. split_interact H; injection H as <- <- <-;
  unfold obj_follows, collect;
  cbn [otype opos star_id owarp ocoins hp active collected with_active with_collected with_hp with_flash];
  repeat split; intros; try discriminate; try lia; auto.
Qed.

Lemma interact_one_warp sqrt atan2_deg lvl pr m o m' o' w :
  interact_one sqrt atan2_deg lvl pr m o = (m', o', Some w) ->
  has pr IN_A = true /\ otype o = PIPE /\ owarp o = w /\
  active o = true /\ collected o = false /\ m' = m /\ o' = o.
Proof.
  intros H. split_interact H; try discriminate.
  injection H as <- <- <-.
  match goal with Hb : negb (active o) || collected o = false |- _ =>
    apply orb_false_iff in Hb as [Ea Ec]; apply negb_false_iff in Ea end.
  repeat split; assumption.
Qed.

Lemma get_star_counters l s m :
  (coins (get_star l s m) = coins m /\ lives (get_star l s m) = lives m /\
   stars m <= stars (get_star l s m))%Z.
Proof.
  unfold get_star. destruct (dict_mem l (lvl_stars m)); cbn zeta;
  match goal with |- context [if ?b then _ else _] => destruct b end; cbn; lia.
Qed.

Lemma interact_one_counters sqrt atan2_deg lvl pr m o m' o' r :
  interact_one sqrt atan2_deg lvl pr m o = (m', o', r) -> (0 <= ocoins o)%Z ->
  (coins m <= coins m' /\ stars m <= stars m' /\ lives m <= lives m')%Z.
Proof.
  intros H Hc. split_interact H; injection H as <- <- <-;
  unfold knock, take_dmg, heal, set_act;
  repeat match goal with |- context [if ?b then _ else _] => destruct b end;
  cbn [coins stars lives with_coins with_lives with_health with_inv with_hurt with_vel
       with_fvel with_pos with_atimer with_astate with_action with_prev_act]; try lia.
  all: destruct (get_star_counters lvl (star_id o) m) as (A & B & C); lia.
Qed.

(** X22. One run of [interact_objs] keeps the object list's length and
    changes each object only as [obj_follows] allows: type, position,
    star id, warp target and coin value are kept, hit points never grow,
    an inactive object never becomes active again and a collected one
    never stops being collected. *)
Theorem interact_objs_objects sqrt atan2_deg lvl pr m objs :
  Forall2 obj_follows objs (snd (fst (interact_objs sqrt atan2_deg lvl pr m objs))).
Proof.
  revert m. induction objs as [|o rest IH]; intros m; [constructor|].
  simpl. destruct (interact_one sqrt atan2_deg lvl pr m o) as [[m1 o1] r] eqn:Ho.
  pose proof (interact_one_follows _ _ _ _ _ _ _ _ _ Ho) as Hf.
  destruct r as [w|].
  - constructor; [exact Hf|]. clear. induction rest; constructor; auto.
    unfold obj_follows. repeat split; auto; lia.
  - specialize (IH m1). destruct (interact_objs sqrt atan2_deg lvl pr m1 rest) as [[m2 rest'] r2].
    constructor; assumption.
Qed.

(** X23. [interact_objs] returns a warp target [w] only when A was
    pressed this frame and the list holds an active, uncollected pipe
    whose warp target is [w]. *)
Theorem interact_objs_warp sqrt atan2_deg lvl pr m objs w :
  snd (interact_objs sqrt atan2_deg lvl pr m objs) = Some w ->
  has pr IN_A = true /\
  exists o, In o objs /\ otype o = PIPE /\ owarp o = w /\
            active o = true /\ collected o = false.
Proof.
  revert m. induction objs as [|o rest IH]; intros m H; [discriminate|].
  simpl in H. destruct (interact_one sqrt atan2_deg lvl pr m o) as [[m1 o1] r] eqn:Ho.
  destruct r as [w'|].
  - simpl in H. injection H as <-.
    destruct (interact_one_warp _ _ _ _ _ _ _ _ _ Ho) as (Ha & Ht & Hw & Hac & Hco & _).
    split; [exact Ha|]. exists o. repeat split; auto. left; reflexivity.
  - destruct (interact_objs sqrt atan2_deg lvl pr m1 rest) as [[m2 rest'] r2] eqn:Hr.
    simpl in H. subst r2.
    destruct (IH m1) as [Ha (o' & Hin & Hrest)]; [rewrite Hr; reflexivity|].
    split; [exact Ha|]. exists o'. split; [right; exact Hin|exact Hrest].
Qed.

Lemma interact_objs_warp_witness :
  snd (interact_objs sqrt_q atan2_unused 1 IN_A mario0 [coin0; pipe0]) = Some 7%Z /\
  (has IN_A IN_A = true /\
   exists o, In o [coin0; pipe0] /\ otype o = PIPE /\ owarp o = 7%Z /\
             active o = true /\ collected o = false).
Proof.
  assert (H : snd (interact_objs sqrt_q atan2_unused 1 IN_A mario0 [coin0; pipe0]) = Some 7%Z)
    by (vm_compute; reflexivity).
  split; [exact H|]. exact (interact_objs_warp _ _ _ _ _ _ _ H).
Defined.

(** X24. When no object carries a negative coin value, a run of
    [interact_objs] never decreases the coin, star or life counters. *)
Theorem interact_objs_counters sqrt atan2_deg lvl pr m objs :
  Forall (fun o => (0 <= ocoins o)%Z) objs ->
  let m' := fst (fst (interact_objs sqrt atan2_deg lvl pr m objs)) in
  (coins m <= coins m' /\ stars m <= stars m' /\ lives m <= lives m')%Z.
Proof.
  intros Hall. revert m. induction Hall as [|o rest Ho Hrest IH]; intros m; cbn zeta.
  - simpl. lia.
  - simpl. destruct (interact_one sqrt atan2_deg lvl pr m o) as [[m1 o1] r] eqn:Hi.
    pose proof (interact_one_counters _ _ _ _ _ _ _ _ _ Hi Ho) as H1.
    destruct r as [w|]; [simpl; exact H1|].
    specialize (IH m1). cbn zeta in IH.
    destruct (interact_objs sqrt atan2_deg lvl pr m1 rest) as [[m2 rest'] r2].
    simpl in IH |- *. lia.
Qed.

Lemma interact_objs_counters_witness :
  Forall (fun o => (0 <= ocoins o)%Z) [coin0; star0; pipe0] /\
  (let m' := fst (fst (interact_objs sqrt_q atan2_unused 1 0 mario0 [coin0; star0; pipe0])) in
   (coins mario0 <= coins m' /\ stars mario0 <= stars m' /\ lives mario0 <= lives m')%Z).
Proof.
  assert (H : Forall (fun o => (0 <= ocoins o)%Z) [coin0; star0; pipe0])
    by (repeat constructor; vm_compute; discriminate).
  split; [exact H|]. exact (interact_objs_counters _ _ _ _ _ _ H).
Defined.

Section Keep.

Variable sins coss : Q -> Q.
Variable surfs : list Surface.

Lemma ground_step_counters x r y :
  ground_step surfs x = (r, y) -> counters y = counters x.
Proof.
  unfold ground_step. cbv zeta.
  destruct (find_floor surfs _ _ _) as [fy fl].
  destruct (Qltb _ _); intros H; injection H as <- <-; reflexivity.
Qed.

Lemma air_loop_counters n q x r y :
  air_loop sins coss surfs n q x = (r, y) -> counters y = counters x.
Proof.
  revert x. induction n as [|n IH]; intros x H; simpl in H.
  - injection H as <- <-. reflexivity.
  - destruct (find_floor surfs _ _ _) as [fy fl].
    destruct (Qleb _ _); [injection H as <- <-; reflexivity|].
    destruct (find_wall _ _ _ _ _ _) as [w|]; [injection H as <- <-; reflexivity|].
    apply IH in H. rewrite H. reflexivity.
Qed.

Lemma air_step_counters x r y :
  air_step sins coss surfs x = (r, y) -> counters y = counters x.
Proof. apply air_loop_counters. Qed.

Ltac keep_counters :=
  repeat match goal with
  | |- context [if ?b then _ else _] => destruct b
  | |- context [snd (ground_step ?s ?x)] =>
      let E := fresh "E" in destruct (ground_step s x) as [?r ?mm] eqn:E;
      apply ground_step_counters in E; simpl snd
  | |- context [let '(_, _) := ground_step ?s ?x in _] =>
      let E := fresh "E" in destruct (ground_step s x) as [?r ?mm] eqn:E;
      apply ground_step_counters in E
  | |- context [let '(_, _) := air_step ?a ?b ?s ?x in _] =>
      let E := fresh "E" in destruct (air_step a b s x) as [?r ?mm] eqn:E;
      apply air_step_counters in E
  | |- context [match ?r with R_air => _ | _ => _ end] => destruct r
  end;
  unfold counters in *; cbn in *; congruence.

Lemma handlers_keep_counters :
  Forall (fun p => forall m c, counters (snd p m c) = counters m) (ACT_MAP sins coss surfs).
Proof.
  unfold ACT_MAP.
  repeat (apply Forall_cons; [intros m c; cbn [snd];
  unfold a_idle, a_walk, walk_move, a_decel, a_crouch, a_jump, a_dbl, a_triple, a_backflip,
    a_sideflip, a_longjump, a_freefall, a_wallkick, a_dive, a_belly, a_gp, a_gpl, a_knock,
    a_lava, a_star, a_death, jump_init, dbl_init, triple_init, backflip_init, sideflip_init,
    longjump_init, wallkick_init, dive_init, knock_init, lava_init, on_first, set_act,
    take_dmg, incr_atimer, zero_hvel, with_vel_y, set_fvel, update_air; cbv zeta;
  keep_counters|]); apply Forall_nil.
Qed.

End Keep.

Lemma dict_get_forall {X : Type} (P : X -> Prop) (k : Z) (d : list (Z * X)) (def : X) :
  P def -> Forall (fun p => P (snd p)) d -> P (dict_get k d def).
Proof.
  intros Hdef Hd. induction Hd as [|[k' v] rest Hv _ IH]; [exact Hdef|].
  simpl. destruct (Z.eqb k' k); assumption.
Qed.

(** X25. No action handler reached through [ACT_MAP] (nor the default
    [a_idle]) changes the coin, star or life counters or the record of
    obtained stars. *)
Theorem dispatch_keeps_counters sins coss surfs m c :
  let m' := dispatch sins coss surfs m c in
  coins m' = coins m /\ stars m' = stars m /\ lives m' = lives m /\
  lvl_stars m' = lvl_stars m.
Proof.
  cbv zeta.
  assert (H : counters (dispatch sins coss surfs m c) = counters m).
  { pose proof (handlers_keep_counters sins coss surfs) as Hall.
    unfold dispatch. apply (dict_get_forall (fun h => forall m c, counters (h m c) = counters m));
      [|exact Hall].
    unfold ACT_MAP in Hall. inversion Hall as [|? ? Hidle]. exact Hidle. }
  unfold counters in H. injection H as H1 H2 H3 H4. auto.
Qed.
